(** * RealTrans TTS manager: a shallow embedding of [lib/tts_manager.py]

    The module wraps two external collaborators, the edge-tts synthesis
    service and the pygame mixer, and keeps a list of temporary audio
    files.  The embedding below threads the Python object ([self]) and the
    outside world (file system, mixer, clock, thread table, stdout)
    through a state-and-exception monad; the behaviour of the external
    collaborators is a parameter ([capabilities]) over which every theorem
    quantifies.

    Conventions of the model:
    - every modelled failure is an instance of [Exception]; [print] and
      [str.strip] do not fail; [Thread.start] raises when the runtime
      refuses a new thread;
    - [os.unlink] fails on a missing file and on the files of the set
      [locked] (a file still open in the mixer, a read-only directory);
    - a started track answers finitely many polls ([play()] is called without
      [loops]), so the polling loop of [_play_audio_sync] terminates;
    - time is a counter of the milliseconds passed to [time.sleep];
    - background threads are interleaved between blocks: the synthesis
      worker is one block, the playback thread is two (its first statement,
      which sets [is_playing], and the rest). *)

From stdpp Require Import gmap strings list fin_maps pretty.

Open Scope string_scope.

(** ** Python values *)

(** A Python [str] is a sequence of Unicode code points. *)
Abbreviation pystr := (list N).

(** [str.isspace] for one code point (CPython's [_PyUnicode_IsWhitespace]). *)
Definition isspace (c : N) : bool :=
  ((9 <=? c) && (c <=? 13) || (28 <=? c) && (c <=? 32) || (c =? 133) ||
   (c =? 160) || (c =? 5760) || (8192 <=? c) && (c <=? 8202) ||
   (c =? 8232) || (c =? 8233) || (c =? 8239) || (c =? 8287) ||
   (c =? 12288))%N.

Fixpoint lstrip (t : pystr) : pystr :=
  match t with
  | [] => []
  | c :: t' => if isspace c then lstrip t' else t
  end.

Definition rstrip (t : pystr) : pystr := rev (lstrip (rev t)).

(** [text.strip()] *)
Definition strip (t : pystr) : pystr := rstrip (lstrip t).

(** Truthiness of a [str], of a path and of an [Optional[str]]. *)
Definition truthy (t : pystr) : bool :=
  match t with [] => false | _ :: _ => true end.

Definition truthy_path (p : string) : bool :=
  match p with EmptyString => false | String _ _ => true end.

Definition truthy_opt (o : option string) : bool :=
  match o with None => false | Some p => truthy_path p end.

(** Code points of an ASCII literal. *)
Fixpoint of_ascii (s : string) : pystr :=
  match s with
  | EmptyString => []
  | String a s' => Ascii.N_of_ascii a :: of_ascii s'
  end.

(** ** Exceptions and results *)

(** The exception classes that the modelled calls raise.  All of them derive
    from [Exception], so [except Exception] and a bare [except:] catch the
    same ones. *)
Inductive exn : Type :=
  | FileNotFoundError
  | FileExistsError
  | PermissionError
  | OSError
  | ValueError
  | RuntimeError
  | pygame_error
  | EdgeTTSError.

Definition exn_str (e : exn) : string :=
  match e with
  | FileNotFoundError => "FileNotFoundError"
  | FileExistsError => "No usable temporary file name found"
  | PermissionError => "PermissionError"
  | OSError => "OSError"
  | ValueError => "ValueError"
  | RuntimeError => "can't start new thread"
  | pygame_error => "pygame.error"
  | EdgeTTSError => "edge_tts error"
  end.

Inductive result (A : Type) : Type :=
  | Ok (a : A)
  | Raise (e : exn).
Arguments Ok {A} a.
Arguments Raise {A} e.

(** ** The object and the world *)

(** The fields of a [TTSManager] instance. *)
Record TTSManager : Type := mkTTS {
  voice : string;
  enabled : bool;
  is_playing : bool;
  _temp_files : list string
}.

(** One answer of [pygame.mixer.music.get_busy()] while a track is playing:
    the device is busy, or the call fails. *)
Inductive poll : Type := Busy | DeviceError.

(** Background threads created by [speak_async], each with the block it runs
    next: the synthesis worker before it runs, and the playback thread
    before and after its first statement [self.is_playing = True]. *)
Inductive thread : Type :=
  | tts_worker_thread (text : pystr)
  | play_thread (file_path : string) (begun : bool).

Record world : Type := mkWorld {
  fs : gmap string N;          (* files on disk, with their size in bytes *)
  locked : gset string;        (* files whose deletion the OS refuses *)
  tmp_next : nat;              (* position in tempfile's candidate names *)
  tick : nat;                  (* calls made to external collaborators *)
  save_calls : nat;            (* calls of the synthesis capability *)
  mixer_calls : nat;           (* calls of the playback capability *)
  mixer_ready : bool;          (* pygame.mixer has been initialised *)
  music_busy : list poll;      (* what the playing track still answers *)
  clock : N;                   (* milliseconds slept *)
  threads : list thread;       (* started threads that have not finished *)
  stdout : list string         (* lines printed *)
}.

Inductive outcome : Type := Returns | Raises (e : exn).

(** What [Communicate(text, voice).save(path)] does: it leaves [n] bytes in
    the file and returns, or leaves [n] bytes and raises. *)
Inductive save_outcome : Type :=
  | SaveOk (n : N)
  | SaveErr (n : N) (e : exn).

(** Behaviour of the external collaborators.  The [nat] argument is the
    [tick] at the time of the call, so a capability may answer differently
    from one call to the next. *)
Record capabilities : Type := mkCaps {
  cap_mixer_init : nat -> outcome;
  cap_new_event_loop : nat -> outcome;
  cap_tmp_name : nat -> string;     (* tempfile's candidate names *)
  cap_tmp_max : nat;                (* tempfile.TMP_MAX *)
  cap_save : nat -> pystr -> string -> save_outcome;
  cap_load : nat -> string -> outcome;
  cap_play : nat -> outcome;
  cap_track : nat -> list poll;     (* polls answered by a started track *)
  cap_thread_start : nat -> nat -> outcome
    (* whether the runtime starts one more thread, given the number alive *)
}.

(** ** The monad: state ([self] and the world) and exceptions.  A raise keeps
    the state reached so far, as in Python. *)
Definition M (A : Type) : Type := TTSManager * world -> result A * (TTSManager * world).

Definition ret {A} (a : A) : M A := fun s => (Ok a, s).

Definition bind {A B} (m : M A) (k : A -> M B) : M B :=
  fun s => match m s with
           | (Ok a, s') => k a s'
           | (Raise e, s') => (Raise e, s')
           end.

Definition raise {A} (e : exn) : M A := fun s => (Raise e, s).

(** [try: body except Exception as e: handler e] *)
Definition try_except {A} (body : M A) (handler : exn -> M A) : M A :=
  fun s => match body s with
           | (Ok a, s') => (Ok a, s')
           | (Raise e, s') => handler e s'
           end.

Declare Scope py_scope.
Delimit Scope py_scope with py.
Notation "'let*' x ':=' m 'in' k" := (bind m (fun x => k))
  (at level 10, x name, m at level 100, k at level 200) : py_scope.
Notation "m ';;;' k" := (bind m (fun _ => k))
  (at level 100, k at level 200, right associativity) : py_scope.
Open Scope py_scope.

Definition get_self : M TTSManager := fun s => (Ok (fst s), s).
Definition get_world : M world := fun s => (Ok (snd s), s).
Definition put_self (o : TTSManager) : M unit := fun s => (Ok tt, (o, snd s)).
Definition put_world (w : world) : M unit := fun s => (Ok tt, (fst s, w)).

(** *** Updates of one field of the world *)

Definition with_fs (f : gmap string N) (w : world) : world :=
  mkWorld f (locked w) (tmp_next w) (tick w) (save_calls w) (mixer_calls w)
          (mixer_ready w) (music_busy w) (clock w) (threads w) (stdout w).

Definition with_tmp_next (k : nat) (w : world) : world :=
  mkWorld (fs w) (locked w) k (tick w) (save_calls w) (mixer_calls w)
          (mixer_ready w) (music_busy w) (clock w) (threads w) (stdout w).

Definition with_clock (c : N) (w : world) : world :=
  mkWorld (fs w) (locked w) (tmp_next w) (tick w) (save_calls w) (mixer_calls w)
          (mixer_ready w) (music_busy w) c (threads w) (stdout w).

Definition with_threads (l : list thread) (w : world) : world :=
  mkWorld (fs w) (locked w) (tmp_next w) (tick w) (save_calls w) (mixer_calls w)
          (mixer_ready w) (music_busy w) (clock w) l (stdout w).

Definition with_stdout (l : list string) (w : world) : world :=
  mkWorld (fs w) (locked w) (tmp_next w) (tick w) (save_calls w) (mixer_calls w)
          (mixer_ready w) (music_busy w) (clock w) (threads w) l.

Definition with_mixer_ready (b : bool) (w : world) : world :=
  mkWorld (fs w) (locked w) (tmp_next w) (tick w) (save_calls w) (mixer_calls w)
          b (music_busy w) (clock w) (threads w) (stdout w).

Definition with_music_busy (l : list poll) (w : world) : world :=
  mkWorld (fs w) (locked w) (tmp_next w) (tick w) (save_calls w) (mixer_calls w)
          (mixer_ready w) l (clock w) (threads w) (stdout w).

(** One more call to an external collaborator. *)
Definition ticked (w : world) : world :=
  mkWorld (fs w) (locked w) (tmp_next w) (S (tick w)) (save_calls w) (mixer_calls w)
          (mixer_ready w) (music_busy w) (clock w) (threads w) (stdout w).

Definition synth_called (w : world) : world :=
  mkWorld (fs w) (locked w) (tmp_next w) (S (tick w)) (S (save_calls w)) (mixer_calls w)
          (mixer_ready w) (music_busy w) (clock w) (threads w) (stdout w).

Definition mixer_called (w : world) : world :=
  mkWorld (fs w) (locked w) (tmp_next w) (S (tick w)) (save_calls w) (S (mixer_calls w))
          (mixer_ready w) (music_busy w) (clock w) (threads w) (stdout w).

(** *** Updates of one field of the object *)

Definition with_enabled (b : bool) (o : TTSManager) : TTSManager :=
  mkTTS (voice o) b (is_playing o) (_temp_files o).

Definition with_voice (v : string) (o : TTSManager) : TTSManager :=
  mkTTS v (enabled o) (is_playing o) (_temp_files o).

Definition with_is_playing (b : bool) (o : TTSManager) : TTSManager :=
  mkTTS (voice o) (enabled o) b (_temp_files o).

Definition with_temp_files (l : list string) (o : TTSManager) : TTSManager :=
  mkTTS (voice o) (enabled o) (is_playing o) l.

(** ** Library calls *)

(** [print(line)] *)
Definition print (line : string) : M unit :=
  fun s => (Ok tt, (fst s, with_stdout (stdout (snd s) ++ [line]) (snd s))).

(** [os.path.exists(p)] *)
Definition os_path_exists (p : string) : M bool :=
  fun s => (Ok (bool_decide (is_Some (fs (snd s) !! p))), s).

(** [os.path.getsize(p)] *)
Definition os_path_getsize (p : string) : M N :=
  fun s => match fs (snd s) !! p with
           | Some n => (Ok n, s)
           | None => (Raise FileNotFoundError, s)
           end.

(** [os.unlink]: the file must exist, and the OS may refuse (a file that is
    open elsewhere, a read-only directory). *)
Definition os_unlink (p : string) : M unit :=
  fun s => match fs (snd s) !! p with
           | None => (Raise FileNotFoundError, s)
           | Some _ =>
               if bool_decide (p ∈ locked (snd s)) then (Raise PermissionError, s)
               else (Ok tt, (fst s, with_fs (delete p (fs (snd s))) (snd s)))
           end.

(** [time.sleep(ms / 1000)] *)
Definition time_sleep (ms : N) : M unit :=
  fun s => (Ok tt, (fst s, with_clock (clock (snd s) + ms)%N (snd s))).

(** [list.remove]: drops the first occurrence, [ValueError] when there is none. *)
Fixpoint list_remove (x : string) (l : list string) : option (list string) :=
  match l with
  | [] => None
  | y :: l' => if bool_decide (y = x) then Some l'
               else match list_remove x l' with
                    | Some r => Some (y :: r)
                    | None => None
                    end
  end.

(** [x in l] *)
Definition list_contains (x : string) (l : list string) : bool :=
  bool_decide (x ∈ l).

(** tempfile's search for an unused name: at most [fuel] candidates, from
    position [k] of the candidate names. *)
Fixpoint mkstemp_inner (names : nat -> string) (suffix : string)
    (files : gmap string N) (fuel k : nat) : option (string * nat) :=
  match fuel with
  | O => None
  | S fuel' =>
      let p := names k ++ suffix in
      match files !! p with
      | Some _ => mkstemp_inner names suffix files fuel' (S k)
      | None => Some (p, S k)
      end
  end.

Section Program.

Variable caps : capabilities.

(** [tempfile.NamedTemporaryFile(suffix=suffix, delete=False)] followed by
    [.name] and [.close()]: an empty file with a name that no file has. *)
Definition NamedTemporaryFile (suffix : string) : M string :=
  fun s =>
    let w := snd s in
    match mkstemp_inner (cap_tmp_name caps) suffix (fs w) (cap_tmp_max caps) (tmp_next w) with
    | Some (p, k) => (Ok p, (fst s, with_tmp_next k (with_fs (<[p := 0%N]> (fs w)) w)))
    | None => (Raise FileExistsError, (fst s, with_tmp_next (tmp_next w + cap_tmp_max caps) w))
    end.

(** [asyncio.new_event_loop()] with [asyncio.set_event_loop(loop)] *)
Definition new_event_loop : M unit :=
  fun s =>
    let w := snd s in
    match cap_new_event_loop caps (tick w) with
    | Returns => (Ok tt, (fst s, ticked w))
    | Raises e => (Raise e, (fst s, ticked w))
    end.

(** [edge_tts.Communicate(text, voice)] and [await communicate.save(path)] *)
Definition Communicate_save (text : pystr) (v : string) (path : string) : M unit :=
  fun s =>
    let w := snd s in
    match cap_save caps (tick w) text v with
    | SaveOk n => (Ok tt, (fst s, synth_called (with_fs (<[path := n]> (fs w)) w)))
    | SaveErr n e => (Raise e, (fst s, synth_called (with_fs (<[path := n]> (fs w)) w)))
    end.

(** [pygame.mixer.init(frequency=22050, size=-16, channels=2, buffer=512)] *)
Definition pygame_mixer_init : M unit :=
  fun s =>
    let w := snd s in
    match cap_mixer_init caps (tick w) with
    | Returns => (Ok tt, (fst s, with_mixer_ready true (mixer_called w)))
    | Raises e => (Raise e, (fst s, mixer_called w))
    end.

(** [pygame.mixer.music.load(path)]: fails when the mixer is not initialised
    or the file is missing, and otherwise as the device decides. *)
Definition music_load (path : string) : M unit :=
  fun s =>
    let w := snd s in
    if negb (mixer_ready w) then (Raise pygame_error, (fst s, mixer_called w))
    else match fs w !! path with
         | None => (Raise pygame_error, (fst s, mixer_called w))
         | Some _ =>
             match cap_load caps (tick w) path with
             | Returns => (Ok tt, (fst s, mixer_called w))
             | Raises e => (Raise e, (fst s, mixer_called w))
             end
         end.

(** [pygame.mixer.music.play()]: the started track fixes what the device
    answers to the polls that follow.  The track is finite ([loops=0]). *)
Definition music_play : M unit :=
  fun s =>
    let w := snd s in
    match cap_play caps (tick w) with
    | Returns => (Ok tt, (fst s, with_music_busy (cap_track caps (tick w)) (mixer_called w)))
    | Raises e => (Raise e, (fst s, mixer_called w))
    end.

(** [threading.Thread(target=..., daemon=True).start()]: the new thread is
    entered in the thread table, unless the runtime refuses to start it
    ([RuntimeError: can't start new thread]); a refused start changes
    nothing. *)
Definition Thread_start (th : thread) : M unit :=
  fun s =>
    let w := snd s in
    match cap_thread_start caps (tick w) (length (threads w)) with
    | Returns => (Ok tt, (fst s, with_threads (threads w ++ [th]) w))
    | Raises e => (Raise e, s)
    end.

(** [pygame.mixer.music.get_busy()] *)
Definition music_get_busy : M bool :=
  fun s =>
    let w := snd s in
    match music_busy w with
    | [] => (Ok false, (fst s, mixer_called w))
    | Busy :: rest => (Ok true, (fst s, with_music_busy rest (mixer_called w)))
    | DeviceError :: rest => (Raise pygame_error, (fst s, with_music_busy rest (mixer_called w)))
    end.

(** ** The methods of [TTSManager] *)

(** [TTSManager.__init__] *)
Definition __init__ (v : string) (en : bool) : world -> result unit * (TTSManager * world) :=
  fun w =>
    (if en then
       try_except
        (pygame_mixer_init ;;;
         print ("TTS Manager initialized with voice: " ++ v))
        (fun e =>
           print ("TTS pygame initialization failed: " ++ exn_str e) ;;;
           let* self := get_self in
           put_self (with_enabled false self))
     else ret tt) (mkTTS v en false [], w).

(** [TTSManager.set_enabled] *)
Definition set_enabled (en : bool) : M unit :=
  let* self := get_self in
  put_self (with_enabled en self) ;;;
  print ("TTS " ++ (if en then "enabled" else "disabled")).

(** [TTSManager.set_voice] *)
Definition set_voice (v : string) : M unit :=
  let* self := get_self in
  put_self (with_voice v self) ;;;
  print ("TTS voice changed to: " ++ v).

(** [TTSManager._synthesize_async], run to completion by
    [loop.run_until_complete]. *)
Definition _synthesize_async (text : pystr) : M (option string) :=
  if negb (truthy (strip text)) then ret None
  else
    try_except
      (let* temp_path := NamedTemporaryFile ".mp3" in
       let* self := get_self in
       Communicate_save text (voice self) temp_path ;;;
       (* Track temp file for cleanup *)
       let* self := get_self in
       put_self (with_temp_files (_temp_files self ++ [temp_path]) self) ;;;
       let* ex := os_path_exists temp_path in
       let* good := (if ex then let* n := os_path_getsize temp_path in ret (0 <? n)%N
                     else ret false) in
       if good then ret (Some temp_path)
       else print "TTS: Audio file was not created properly" ;;; ret None)
      (fun e => print ("TTS synthesis error: " ++ exn_str e) ;;; ret None).

(** [while pygame.mixer.music.get_busy(): time.sleep(0.1)].  The recursion
    is on a bound on the polls still to come; [wait_for_playback] below
    starts it one above the number of polls the track answers, so the
    bound is never reached. *)
Fixpoint while_get_busy (bound : nat) : M unit :=
  match bound with
  | O => ret tt
  | S bound' =>
      let* busy := music_get_busy in
      if busy then time_sleep 100 ;;; while_get_busy bound' else ret tt
  end.

(** The loop, started in the current state of the mixer. *)
Definition wait_for_playback : M unit :=
  let* w := get_world in
  while_get_busy (S (length (music_busy w))).

(** [TTSManager._play_audio_sync] *)
Definition _play_audio_sync (file_path : string) : M bool :=
  try_except
    (let* ex := os_path_exists file_path in
     if negb ex then ret false
     else
       music_load file_path ;;;
       music_play ;;;
       (* Wait for playback to finish *)
       wait_for_playback ;;;
       ret true)
    (fun e => print ("TTS playback error: " ++ exn_str e) ;;; ret false).

(** [self._temp_files.remove(file_path)] *)
Definition temp_files_remove (file_path : string) : M unit :=
  let* self := get_self in
  match list_remove file_path (_temp_files self) with
  | Some l => put_self (with_temp_files l self)
  | None => raise ValueError
  end.

(** The block [# Clean up temp file] of [_play_audio_thread]. *)
Definition play_thread_clean_up (file_path : string) : M unit :=
  try_except
    (let* self := get_self in
     if list_contains file_path (_temp_files self) then
       os_unlink file_path ;;;
       temp_files_remove file_path
     else ret tt)
    (fun _ => ret tt).

(** [_play_audio_thread] after its first statement. *)
Definition _play_audio_thread_rest (file_path : string) : M unit :=
  let* success := _play_audio_sync file_path in
  play_thread_clean_up file_path ;;;
  let* self := get_self in
  put_self (with_is_playing false self) ;;;
  if negb success then print "TTS: Audio playback failed" else ret tt.

(** [TTSManager._play_audio_thread] *)
Definition _play_audio_thread (file_path : string) : M unit :=
  let* self := get_self in
  put_self (with_is_playing true self) ;;;
  _play_audio_thread_rest file_path.

(** The closure [tts_worker] of [speak_async]. *)
Definition tts_worker (text : pystr) : M unit :=
  try_except
    (new_event_loop ;;;
     let* audio_file := _synthesize_async text in
     if truthy_opt audio_file then
       match audio_file with
       | Some p => Thread_start (play_thread p false)
       | None => ret tt
       end
     else ret tt)
    (fun e => print ("TTS worker error: " ++ exn_str e)).

(** [TTSManager.speak_async]: the part that runs in the caller. *)
Definition speak_async (text : pystr) : M unit :=
  let* self := get_self in
  if negb (enabled self) || negb (truthy (strip text)) then ret tt
  else
    (* Don't start new speech if already playing *)
    if is_playing self then ret tt
    else Thread_start (tts_worker_thread text).

(** The block [# Clean up] of [speak_sync]. *)
Definition speak_sync_clean_up (audio_file : string) : M unit :=
  try_except
    (os_unlink audio_file ;;;
     let* self := get_self in
     if list_contains audio_file (_temp_files self) then temp_files_remove audio_file
     else ret tt)
    (fun _ => ret tt).

(** [TTSManager.speak_sync] *)
Definition speak_sync (text : pystr) : M bool :=
  let* self := get_self in
  if negb (enabled self) || negb (truthy (strip text)) then ret false
  else
    try_except
      (new_event_loop ;;;
       let* audio_file := _synthesize_async text in
       if truthy_opt audio_file then
         match audio_file with
         | Some p =>
             let* success := _play_audio_sync p in
             speak_sync_clean_up p ;;;
             ret success
         | None => ret false
         end
       else ret false)
      (fun e => print ("TTS sync error: " ++ exn_str e) ;;; ret false).

(** The body of the loop of [cleanup]. *)
Definition cleanup_one (temp_file : string) : M unit :=
  try_except
    (let* ex := os_path_exists temp_file in
     if ex then os_unlink temp_file else ret tt)
    (fun _ => ret tt).

(** [for temp_file in self._temp_files: ...] over the elements of the list. *)
Fixpoint cleanup_loop (l : list string) : M unit :=
  match l with
  | [] => ret tt
  | temp_file :: l' => cleanup_one temp_file ;;; cleanup_loop l'
  end.

(** [TTSManager.cleanup] *)
Definition cleanup : M unit :=
  let* self := get_self in
  cleanup_loop (_temp_files self) ;;;
  let* self := get_self in
  put_self (with_temp_files [] self).

(** ** Scheduling of the background threads *)

(** The thread at position [i] of the thread table runs its next block and,
    unless it is a playback thread that has only set the flag, finishes. *)
Definition run_thread (i : nat) : M unit :=
  let* w := get_world in
  match threads w !! i with
  | None => ret tt
  | Some (tts_worker_thread text) =>
      put_world (with_threads (delete i (threads w)) w) ;;;
      tts_worker text
  | Some (play_thread p false) =>
      put_world (with_threads (<[i := play_thread p true]> (threads w)) w) ;;;
      let* self := get_self in
      put_self (with_is_playing true self)
  | Some (play_thread p true) =>
      put_world (with_threads (delete i (threads w)) w) ;;;
      _play_audio_thread_rest p
  end.

(** The threads run their blocks in the order given by [sched]. *)
Fixpoint run_schedule (sched : list nat) : M unit :=
  match sched with
  | [] => ret tt
  | i :: sched' => run_thread i ;;; run_schedule sched'
  end.

End Program.

(** [TTSManager.__del__] *)
Definition __del__ : M unit := cleanup.

(** Available Russian voices for edge-tts, in the order of the dict. *)
Definition RUSSIAN_VOICES : list (string * string) :=
  [("dariya", "ru-RU-DariyaNeural");
   ("svetlana", "ru-RU-SvetlanaNeural");
   ("dmitry", "ru-RU-DmitryNeural");
   ("pavel", "ru-RU-PavelNeural")].

Definition get_available_voices : list (string * string) := RUSSIAN_VOICES.

(** ** Vocabulary of the statements *)

(** The poll is answered "busy". *)
Definition is_busy (p : poll) : bool :=
  match p with Busy => true | DeviceError => false end.

(** Number of polls answered "busy" before the first other answer. *)
Fixpoint busy_prefix (l : list poll) : nat :=
  match l with Busy :: l' => S (busy_prefix l') | _ => 0 end.

(** What the playback calls leave alone. *)
Record mixer_frame (w w' : world) : Prop := {
  mf_fs : fs w' = fs w;
  mf_locked : locked w' = locked w;
  mf_tmp : tmp_next w' = tmp_next w;
  mf_save : save_calls w' = save_calls w;
  mf_threads : threads w' = threads w
}.

(** Loading and playback go through without a device error: the mixer is
    initialised, [load] and [play] return, and no poll of the track fails. *)
Definition play_ok (caps : capabilities) (p : string) (w : world) : Prop :=
  mixer_ready w = true /\ cap_load caps (tick w) p = Returns /\
  cap_play caps (S (tick w)) = Returns /\
  forallb is_busy (cap_track caps (S (tick w))) = true.

(** What the synthesis step leaves alone. *)
Record synth_frame (w w' : world) : Prop := {
  sf_locked : locked w' = locked w;
  sf_threads : threads w' = threads w;
  sf_mixer_calls : mixer_calls w' = mixer_calls w;
  sf_mixer_ready : mixer_ready w' = mixer_ready w;
  sf_music_busy : music_busy w' = music_busy w;
  sf_clock : clock w' = clock w
}.

(** The world after an attempt to delete [p] whose error, if any, is
    swallowed. *)
Definition unlinked (p : string) (w : world) : world :=
  match fs w !! p with
  | Some _ => if bool_decide (p ∈ locked w) then w else with_fs (delete p (fs w)) w
  | None => w
  end.

(** The world after such an attempt on each path of [l], in order. *)
Definition swept (l : list string) (w : world) : world :=
  fold_left (fun w p => unlinked p w) l w.

(** The state left by the clean-up block of the playback thread. *)
Definition after_thread_clean_up (p : string) (s : TTSManager * world) : TTSManager * world :=
  if bool_decide (p ∈ _temp_files s.1) then
    (if bool_decide (is_Some (fs s.2 !! p) /\ p ∉ locked s.2)
     then match list_remove p (_temp_files s.1) with
          | Some l => with_temp_files l s.1
          | None => s.1
          end
     else s.1, unlinked p s.2)
  else s.

(** The state left by the clean-up block of [speak_sync]. *)
Definition after_sync_clean_up (p : string) (s : TTSManager * world) : TTSManager * world :=
  (if bool_decide (is_Some (fs s.2 !! p) /\ p ∉ locked s.2)
   then match list_remove p (_temp_files s.1) with
        | Some l => with_temp_files l s.1
        | None => s.1
        end
   else s.1, unlinked p s.2).

(** The synthesis capability has failed: it raised, or it returned and left
    an empty file. *)
Definition synthesis_failed (so : save_outcome) : Prop :=
  match so with
  | SaveOk n => n = 0%N
  | SaveErr _ _ => True
  end.

(** The state once the worker of a first request [t1] has run and its
    playback thread, if one was started, has executed its first statement. *)
Definition first_request_started (caps : capabilities) (t1 : pystr)
    (s : TTSManager * world) : TTSManager * world :=
  snd ((speak_async caps t1 ;;; run_thread caps 0 ;;; run_thread caps 0) s).

(** While the only thread left is the playback thread of the request in
    flight, no scheduling step calls the synthesis capability. *)
Definition playing_out (n : nat) (s : TTSManager * world) : Prop :=
  save_calls (snd s) = n /\
  (threads (snd s) = [] \/ exists p, threads (snd s) = [play_thread p true]).

(** ** Concrete collaborators and states for the examples *)

Definition demo_names (k : nat) : string := "/tmp/tmp" ++ pretty k.

(** Collaborators that never fail, except that synthesis does [save] and a
    started track answers [track]. *)
Definition demo_caps (save : save_outcome) (track : list poll) : capabilities :=
  mkCaps (fun _ => Returns) (fun _ => Returns) demo_names 100
         (fun _ _ _ => save) (fun _ _ => Returns) (fun _ => Returns) (fun _ => track)
         (fun _ _ => Returns).

(** Synthesis writes 100 bytes; the device is busy for two polls. *)
Definition demo_ok : capabilities := demo_caps (SaveOk 100) [Busy; Busy].

(** Synthesis returns and leaves an empty file. *)
Definition demo_empty : capabilities := demo_caps (SaveOk 0) [].

(** Synthesis raises. *)
Definition demo_raising : capabilities := demo_caps (SaveErr 0 EdgeTTSError) [].

Definition demo_world : world := mkWorld ∅ ∅ 0 0 0 0 true [] 0 [] [].

Definition demo_self : TTSManager := mkTTS "ru-RU-DariyaNeural" true false [].

(** A file on disk that the object does not track. *)
Definition untracked_world : world :=
  mkWorld {[ "/tmp/a.mp3" := 100%N ]} ∅ 0 0 0 0 true [] 0 [] [].

(** The OS refuses to delete the first temporary file. *)
Definition locked_world : world :=
  mkWorld ∅ {[ "/tmp/tmp0.mp3" ]} 0 0 0 0 true [] 0 [] [].

(** An object that tracks a file whose deletion the OS refuses. *)
Definition stuck_self : TTSManager :=
  mkTTS "ru-RU-DariyaNeural" true false ["/tmp/tmp0.mp3"].

Definition stuck_world : world :=
  mkWorld {[ "/tmp/tmp0.mp3" := 100%N ]} {[ "/tmp/tmp0.mp3" ]} 0 0 0 0 true [] 0 [] [].

(** The state after a successful [speak_sync]. *)
Definition demo_sync_end : TTSManager * world :=
  snd (speak_sync demo_ok (of_ascii "hello") (demo_self, demo_world)).

(** The Unicode text of the scenario: "Привет". *)
Definition privet : pystr := [1055; 1088; 1080; 1074; 1077; 1090]%N.

(** ** Vocabulary of the further properties *)

(** [speak_sync] on [text] gets as far as playback, of the file [p] of [n]
    bytes: the object is enabled, the text is not blank, the event loop and
    a temporary file [p] are created, and [save] returns leaving [n > 0]
    bytes. *)
Definition reaches_playback (caps : capabilities) (text : pystr) (o : TTSManager)
    (w : world) (p : string) (n : N) : Prop :=
  enabled o = true /\ truthy (strip text) = true /\
  cap_new_event_loop caps (tick w) = Returns /\
  (exists k, mkstemp_inner (cap_tmp_name caps) ".mp3" (fs w) (cap_tmp_max caps) (tmp_next w)
             = Some (p, k)) /\
  cap_save caps (S (tick w)) text (voice o) = SaveOk n /\ (0 < n)%N.

(** The call returned. *)
Definition returns (r : outcome) : bool :=
  match r with Returns => true | Raises _ => false end.

(** [_play_audio_sync] gets as far as the polling loop: the file exists, the
    mixer is initialised, [load] and [play] return. *)
Definition playback_started (caps : capabilities) (p : string) (w : world) : bool :=
  bool_decide (is_Some (fs w !! p)) && mixer_ready w &&
  returns (cap_load caps (tick w) p) && returns (cap_play caps (S (tick w))).

(** The outcome [r] with [f] applied to the object. *)
Definition on_self {A} (f : TTSManager -> TTSManager)
    (r : result A * (TTSManager * world)) : result A * (TTSManager * world) :=
  (fst r, (f (fst (snd r)), snd (snd r))).

(** The computation [m] neither reads nor writes what [f] changes of the
    object. *)
Definition ignores {A} (f : TTSManager -> TTSManager) (m : M A) : Prop :=
  forall o w, m (f o, w) = on_self f (m (o, w)).

(** Every tracked path names a file on disk, and no path is tracked twice. *)
Definition tracked_ok (s : TTSManager * world) : Prop :=
  NoDup (_temp_files (fst s)) /\
  Forall (fun p => is_Some (fs (snd s) !! p)) (_temp_files (fst s)).

(** The computation [m] keeps [tracked_ok]. *)
Definition keeps_tracked {A} (m : M A) : Prop :=
  forall s, tracked_ok s -> tracked_ok (snd (m s)).

(** Synthesis writes 100 bytes; the device refuses to load them. *)
Definition demo_no_device : capabilities :=
  mkCaps (fun _ => Returns) (fun _ => Returns) demo_names 100
         (fun _ _ _ => SaveOk 100) (fun _ _ => Raises pygame_error) (fun _ => Returns)
         (fun _ => []) (fun _ _ => Returns).

(** Synthesis and playback work, but the runtime starts no new thread. *)
Definition demo_no_threads : capabilities :=
  mkCaps (fun _ => Returns) (fun _ => Returns) demo_names 100
         (fun _ _ _ => SaveOk 100) (fun _ _ => Returns) (fun _ => Returns)
         (fun _ => [Busy; Busy]) (fun _ _ => Raises RuntimeError).

(** A world in which nobody has initialised the mixer. *)
Definition cold_world : world := mkWorld ∅ ∅ 0 0 0 0 false [] 0 [] [].

(** The file that [stuck_self] tracks, this time deletable. *)
Definition tracked_world : world :=
  mkWorld {[ "/tmp/tmp0.mp3" := 100%N ]} ∅ 0 0 0 0 true [] 0 [] [].

(** Two playback threads in progress at once. *)
Definition overlap_self : TTSManager := mkTTS "ru-RU-DariyaNeural" true true [].

Definition overlap_world : world :=
  mkWorld ∅ ∅ 0 0 0 0 true [] 0
          [play_thread "/tmp/tmp0.mp3" true; play_thread "/tmp/tmp1.mp3" true] [].

(** Two synthesis steps in a row. *)
Definition demo_first : result (option string) * (TTSManager * world) :=
  _synthesize_async demo_ok (of_ascii "a") (demo_self, demo_world).

Definition demo_second : result (option string) * (TTSManager * world) :=
  _synthesize_async demo_ok (of_ascii "b") (snd demo_first).

(** * Properties *)

(** ** Auxiliary facts *)

(** Unfolds [speak_sync] in [H] up to the synthesis step, for an enabled
    object and a text that is not blank. *)
Ltac open_speak_sync H Hen Ht :=
  unfold speak_sync, bind at 1, get_self in H; cbn -[bind try_except] in H;
  rewrite Hen, Ht in H; cbn -[bind try_except] in H;
  unfold try_except, bind, new_event_loop in H; cbn in H.

(** *** Blank text *)

Lemma lstrip_nil_iff (t : pystr) : lstrip t = [] <-> forallb isspace t = true.
Proof.
  induction t as [|c t IH]; simpl; [done|].
  destruct (isspace c); simpl; [done|]. split; discriminate.
Qed.

Lemma lstrip_head (t : pystr) c t' : lstrip t = c :: t' -> isspace c = false.
Proof.
  induction t as [|a t IH]; simpl; [done|].
  destruct (isspace a) eqn:E; [done|]. intros [= <- _]. done.
Qed.

Lemma forallb_rev {A} (f : A -> bool) l : forallb f (rev l) = forallb f l.
Proof.
  induction l as [|a l IH]; simpl; [done|].
  rewrite forallb_app, IH. simpl. rewrite andb_true_r. apply andb_comm.
Qed.

(** [not text.strip()] holds exactly for the texts made of whitespace only. *)
Lemma blank_iff (t : pystr) : truthy (strip t) = false <-> forallb isspace t = true.
Proof.
  unfold strip, rstrip. split.
  - intros H. destruct (rev (lstrip (rev (lstrip t)))) as [|c r] eqn:E; [|done].
    apply (f_equal (@rev N)) in E. rewrite rev_involutive in E. simpl in E.
    apply lstrip_nil_iff in E. rewrite forallb_rev in E.
    destruct (lstrip t) as [|a t'] eqn:E'; [by apply lstrip_nil_iff|].
    apply lstrip_head in E'. simpl in E. by rewrite E' in E.
  - intros H. apply lstrip_nil_iff in H. by rewrite H.
Qed.

(** *** Playback *)

Lemma mixer_frame_refl w : mixer_frame w w.
Proof. by split. Qed.

Lemma mixer_frame_trans w1 w2 w3 : mixer_frame w1 w2 -> mixer_frame w2 w3 -> mixer_frame w1 w3.
Proof. intros [] []. split; congruence. Qed.

(** The polling loop ends when the track has answered all its polls or one
    of them fails, whatever the bound above the number of polls; it sleeps
    100 ms per busy answer. *)
Lemma while_get_busy_run script : forall bound o w,
  music_busy w = script -> length script < bound ->
  exists w',
    while_get_busy bound (o, w) =
      (if forallb is_busy script then Ok tt else Raise pygame_error, (o, w')) /\
    mixer_frame w w' /\ stdout w' = stdout w /\ mixer_ready w' = mixer_ready w /\
    clock w' = (clock w + 100 * N.of_nat (busy_prefix script))%N /\
    mixer_calls w' = mixer_calls w + S (busy_prefix script) /\
    (forallb is_busy script = true -> music_busy w' = []).
Proof.
  induction script as [|p script IH]; intros bound o w Hw Hb.
  - destruct bound as [|bound]; [simpl in Hb; lia|].
    eexists. cbn. unfold bind, music_get_busy. cbn. rewrite Hw. cbn.
    split; [reflexivity|]. split; [by split|]. repeat split; try done; cbn; lia.
  - destruct bound as [|bound]; [simpl in Hb; lia|].
    destruct p.
    + destruct (IH bound o (with_clock (clock w + 100)%N (with_music_busy script (mixer_called w))))
        as (w' & Hrun & Hf & Hout & Hrdy & Hclk & Hcalls & Hidle); [done|simpl in Hb; lia|].
      exists w'. cbn. unfold bind, music_get_busy. cbn. rewrite Hw. cbn.
      unfold time_sleep. cbn. split; [exact Hrun|].
      split; [destruct Hf; by split|]. repeat split; try done.
      * rewrite Hclk. cbn. lia.
      * rewrite Hcalls. cbn. lia.
    + eexists. cbn. unfold bind, music_get_busy. cbn. rewrite Hw. cbn.
      split; [reflexivity|]. split; [by split|]. repeat split; try done; cbn; lia.
Qed.

Lemma busy_prefix_all l : forallb is_busy l = true -> busy_prefix l = length l.
Proof. induction l as [|[] l IH]; simpl; intros H; [done| |done]. by rewrite IH. Qed.

Lemma wait_for_playback_run o w :
  exists w',
    wait_for_playback (o, w) =
      (if forallb is_busy (music_busy w) then Ok tt else Raise pygame_error, (o, w')) /\
    mixer_frame w w' /\ stdout w' = stdout w /\ mixer_ready w' = mixer_ready w /\
    clock w' = (clock w + 100 * N.of_nat (busy_prefix (music_busy w)))%N /\
    mixer_calls w' = mixer_calls w + S (busy_prefix (music_busy w)) /\
    (forallb is_busy (music_busy w) = true -> music_busy w' = []).
Proof.
  unfold wait_for_playback, bind, get_world. cbn -[while_get_busy].
  apply while_get_busy_run; [done|lia].
Qed.

Lemma play_audio_sync_run caps p o w :
  exists b w',
    _play_audio_sync caps p (o, w) = (Ok b, (o, w')) /\ mixer_frame w w' /\
    (fs w !! p = None -> b = false /\ w' = w) /\
    (is_Some (fs w !! p) ->
       (b = true <-> play_ok caps p w) /\
       (b = true ->
          clock w' = (clock w + 100 * N.of_nat (length (cap_track caps (S (tick w)))))%N /\
          mixer_calls w' = mixer_calls w + 2 + S (length (cap_track caps (S (tick w)))) /\
          music_busy w' = [] /\ stdout w' = stdout w)).
Proof.
  unfold _play_audio_sync, try_except, bind, os_path_exists, music_load, music_play,
    print, ret, play_ok. cbn -[wait_for_playback].
  destruct (fs w !! p) as [n|] eqn:Hp; cbn -[wait_for_playback].
  2:{ exists false, w. repeat split; try done. }
  destruct (mixer_ready w) eqn:Hr; cbn -[wait_for_playback]; rewrite ?Hp.
  2:{ eexists false, _. split; [reflexivity|]. split; [by split|].
      split; [done|]. intros _. split; [|done]. split; [done|]. by intros (? & _). }
  destruct (cap_load caps (tick w) p) eqn:Hl; cbn -[wait_for_playback].
  2:{ eexists false, _. split; [reflexivity|]. split; [by split|].
      split; [done|]. intros _. split; [|done]. split; [done|]. by intros (_ & ? & _). }
  destruct (cap_play caps (S (tick w))) eqn:Hpl; cbn -[wait_for_playback].
  2:{ eexists false, _. split; [reflexivity|]. split; [by split|].
      split; [done|]. intros _. split; [|done]. split; [done|]. by intros (_ & _ & ? & _). }
  set (w1 := with_music_busy _ _).
  destruct (wait_for_playback_run o w1)
    as (w' & Hrun & Hf & Hout & Hrdy & Hclk & Hcalls & Hidle).
  rewrite Hrun. subst w1. cbn in *.
  destruct (forallb is_busy (cap_track caps (S (tick w)))) eqn:Hall.
  - exists true, w'. split; [done|]. split; [destruct Hf; by split|].
    split; [done|]. intros _. split; [done|]. intros _.
    rewrite Hclk, Hcalls, (busy_prefix_all _ Hall). repeat split; auto; lia.
  - eexists false, _. split; [reflexivity|]. split; [destruct Hf; by split|].
    split; [done|]. intros _. split; [|done]. split; [done|]. by intros (_ & _ & _ & ?).
Qed.

(** *** Synthesis *)

Lemma mkstemp_inner_fresh names suffix (files : gmap string N) fuel : forall k p k',
  mkstemp_inner names suffix files fuel k = Some (p, k') ->
  files !! p = None /\ exists j, p = names j ++ suffix.
Proof.
  induction fuel as [|fuel IH]; intros k p k' H; simpl in H; [done|].
  destruct (files !! (names k ++ suffix)) eqn:E; [by eapply IH|].
  injection H as <- <-. eauto.
Qed.

Lemma truthy_path_suffix s : truthy_path (s ++ ".mp3") = true.
Proof. by destruct s. Qed.

(** The synthesis step, case by case. *)
Lemma synthesize_run caps text o w :
  if negb (truthy (strip text)) then
    _synthesize_async caps text (o, w) = (Ok None, (o, w))
  else
    match mkstemp_inner (cap_tmp_name caps) ".mp3" (fs w) (cap_tmp_max caps) (tmp_next w) with
    | None =>
        exists w', _synthesize_async caps text (o, w) = (Ok None, (o, w')) /\
          synth_frame w w' /\ fs w' = fs w /\ save_calls w' = save_calls w /\ tick w' = tick w
    | Some (p, _) =>
        match cap_save caps (tick w) text (voice o) with
        | SaveErr n _ =>
            exists w', _synthesize_async caps text (o, w) = (Ok None, (o, w')) /\
              synth_frame w w' /\ fs w' = <[p := n]> (fs w) /\
              save_calls w' = S (save_calls w) /\ tick w' = S (tick w)
        | SaveOk n =>
            exists w',
              _synthesize_async caps text (o, w) =
                (Ok (if (0 <? n)%N then Some p else None),
                 (with_temp_files (_temp_files o ++ [p]) o, w')) /\
              synth_frame w w' /\ fs w' = <[p := n]> (fs w) /\
              save_calls w' = S (save_calls w) /\ tick w' = S (tick w)
        end
    end.
Proof.
  unfold _synthesize_async.
  destruct (negb (truthy (strip text))); [done|].
  unfold try_except, bind, NamedTemporaryFile, Communicate_save, get_self, put_self,
    os_path_exists, os_path_getsize, print, ret. cbn.
  destruct (mkstemp_inner _ _ _ _ _) as [[p k]|] eqn:Hmk; cbn.
  2:{ eexists. split; [reflexivity|]. by repeat split. }
  destruct (cap_save caps (tick w) text (voice o)) as [n|n e]; cbn.
  - rewrite !insert_insert_eq, !lookup_insert_eq. cbn. rewrite ?lookup_insert_eq.
    destruct (0 <? n)%N; cbn; (eexists; split; [reflexivity|]; by repeat split).
  - rewrite insert_insert_eq. eexists; split; [reflexivity|]; by repeat split.
Qed.

(** *** [list.remove] *)

Lemma list_remove_None x l : list_remove x l = None <-> x ∉ l.
Proof.
  induction l as [|y l IH]; simpl.
  - split; [intros _; apply not_elem_of_nil|done].
  - case_bool_decide as E.
    + subst. split; [done|]. intros H. exfalso. apply H. left.
    + rewrite not_elem_of_cons. destruct (list_remove x l).
      * split; [done|]. intros [_ H]. by apply IH in H.
      * split; [|done]. intros _. split; [congruence|]. by apply IH.
Qed.

Lemma list_remove_Some_perm x l : forall l', list_remove x l = Some l' -> l ≡ₚ x :: l'.
Proof.
  induction l as [|y l IH]; simpl; intros l' H; [done|].
  case_bool_decide as E.
  - by injection H as <-; subst.
  - destruct (list_remove x l) as [r|]; [|done]. injection H as <-.
    rewrite (IH r eq_refl). apply Permutation_swap.
Qed.

Lemma list_remove_snoc_fresh x l : x ∉ l -> list_remove x (l ++ [x]) = Some l.
Proof.
  induction l as [|y l IH]; simpl; intros H.
  - by rewrite bool_decide_eq_true_2.
  - apply not_elem_of_cons in H as [Hxy H].
    rewrite bool_decide_eq_false_2 by congruence. by rewrite IH.
Qed.

Lemma elem_of_snoc (x : string) l : x ∈ (l ++ [x])%list.
Proof. apply elem_of_app. right. by apply list_elem_of_singleton. Qed.

Lemma list_remove_snoc x l : exists l', list_remove x (l ++ [x]) = Some l' /\ l' ≡ₚ l.
Proof.
  destruct (list_remove x (l ++ [x])) as [l'|] eqn:E.
  - exists l'. split; [done|]. apply list_remove_Some_perm in E.
    apply (Permutation_cons_inv (a:=x)). rewrite <- E. by rewrite Permutation_app_comm.
  - apply list_remove_None in E. exfalso. apply E, elem_of_snoc.
Qed.

(** *** Deleting files *)

Lemma unlinked_fs p w q :
  fs (unlinked p w) !! q = if bool_decide (q = p /\ p ∉ locked w) then None else fs w !! q.
Proof.
  unfold unlinked. destruct (fs w !! p) eqn:E.
  - case_bool_decide as Hl.
    + rewrite bool_decide_eq_false_2; [done|]. by intros [_ ?].
    + cbn. case_bool_decide as Hq.
      * destruct Hq as [-> _]. apply lookup_delete_eq.
      * apply lookup_delete_ne. intros ->. by apply Hq.
  - case_bool_decide as Hq; [|done]. by destruct Hq as [-> _].
Qed.

Lemma unlinked_rest p w : unlinked p w = with_fs (fs (unlinked p w)) w.
Proof.
  unfold unlinked. destruct (fs w !! p); [case_bool_decide|]; by destruct w.
Qed.

Lemma unlinked_locked p w : locked (unlinked p w) = locked w.
Proof. rewrite unlinked_rest. done. Qed.

Lemma swept_locked l : forall w, locked (swept l w) = locked w.
Proof.
  induction l as [|p l IH]; intros w; [done|]. cbn. fold (swept l (unlinked p w)).
  by rewrite IH, unlinked_locked.
Qed.

Lemma swept_rest l : forall w, swept l w = with_fs (fs (swept l w)) w.
Proof.
  induction l as [|p l IH]; intros w; [by destruct w|]. cbn. fold (swept l (unlinked p w)).
  rewrite IH at 1. rewrite unlinked_rest at 2. done.
Qed.

Lemma swept_fs l : forall w q,
  fs (swept l w) !! q = if bool_decide (q ∈ l /\ q ∉ locked w) then None else fs w !! q.
Proof.
  induction l as [|p l IH]; intros w q.
  - cbn. rewrite bool_decide_eq_false_2; [done|]. intros [H _]. by apply not_elem_of_nil in H.
  - cbn. fold (swept l (unlinked p w)). rewrite IH, unlinked_locked, unlinked_fs.
    case_bool_decide as A; case_bool_decide as B; try case_bool_decide as C;
      try done; exfalso; rewrite elem_of_cons in *; intuition congruence.
Qed.

Lemma cleanup_one_run p o w : cleanup_one p (o, w) = (Ok tt, (o, unlinked p w)).
Proof.
  unfold cleanup_one, try_except, bind, os_path_exists, os_unlink, ret, unlinked. cbn.
  destruct (fs w !! p) eqn:E; cbn; [|done]. rewrite E. by case_bool_decide.
Qed.

Lemma cleanup_loop_run l : forall o w, cleanup_loop l (o, w) = (Ok tt, (o, swept l w)).
Proof.
  induction l as [|p l IH]; intros o w; [done|].
  cbn. unfold bind. rewrite cleanup_one_run. apply IH.
Qed.

Lemma cleanup_run o w : cleanup (o, w) = (Ok tt, (with_temp_files [] o, swept (_temp_files o) w)).
Proof. unfold cleanup, bind, get_self, put_self. cbn. by rewrite cleanup_loop_run. Qed.

Lemma speak_sync_clean_up_run p o w :
  speak_sync_clean_up p (o, w) =
    (Ok tt,
     (if bool_decide (is_Some (fs w !! p) /\ p ∉ locked w)
      then match list_remove p (_temp_files o) with
           | Some l => with_temp_files l o
           | None => o
           end
      else o, unlinked p w)).
Proof.
  unfold speak_sync_clean_up, temp_files_remove, try_except, bind, os_unlink, get_self,
    put_self, raise, ret, list_contains, unlinked. cbn.
  destruct (fs w !! p) eqn:E; cbn; [|done].
  case_bool_decide as Hl; cbn.
  { rewrite bool_decide_eq_false_2; [done|]. by intros [_ ?]. }
  rewrite (bool_decide_eq_true_2 (is_Some (Some n) /\ p ∉ locked w)) by eauto.
  case_bool_decide as Hin; cbn.
  - destruct (list_remove p (_temp_files o)) eqn:Hr; [done|].
    by apply list_remove_None in Hr.
  - apply list_remove_None in Hin. by rewrite Hin.
Qed.

Lemma play_thread_clean_up_run p o w :
  play_thread_clean_up p (o, w) =
    (Ok tt,
     if bool_decide (p ∈ _temp_files o) then
       (if bool_decide (is_Some (fs w !! p) /\ p ∉ locked w)
        then match list_remove p (_temp_files o) with
             | Some l => with_temp_files l o
             | None => o
             end
        else o, unlinked p w)
     else (o, w)).
Proof.
  unfold play_thread_clean_up, temp_files_remove, try_except, bind, os_unlink, get_self,
    put_self, raise, ret, list_contains, unlinked. cbn.
  case_bool_decide as Hin; cbn; [|done].
  destruct (fs w !! p) eqn:E; cbn; [|done].
  case_bool_decide as Hl; cbn.
  { rewrite bool_decide_eq_false_2; [done|]. by intros [_ ?]. }
  rewrite (bool_decide_eq_true_2 (is_Some (Some n) /\ p ∉ locked w)) by eauto.
  destruct (list_remove p (_temp_files o)) eqn:Hr; [done|].
  by apply list_remove_None in Hr.
Qed.

(** *** Running the methods *)

Lemma bind_eq {A B} (m : M A) (k : A -> M B) s :
  bind m k s = match m s with
               | (Ok a, s') => k a s'
               | (Raise e, s') => (Raise e, s')
               end.
Proof. reflexivity. Qed.

(** A request that finds the flag set changes nothing. *)
Lemma speak_async_playing caps text o w :
  is_playing o = true -> speak_async caps text (o, w) = (Ok tt, (o, w)).
Proof.
  intros H. unfold speak_async, bind, get_self, ret. cbn. rewrite H.
  by destruct (negb (enabled o) || negb (truthy (strip text))).
Qed.

(** A request that passes both checks starts one worker thread. *)
Lemma speak_async_starts caps text o w :
  enabled o = true -> truthy (strip text) = true -> is_playing o = false ->
  cap_thread_start caps (tick w) (length (threads w)) = Returns ->
  speak_async caps text (o, w) =
    (Ok tt, (o, with_threads (threads w ++ [tts_worker_thread text]) w)).
Proof.
  intros Hen Ht Hpl Hst. unfold speak_async, bind, get_self, Thread_start, ret. cbn.
  rewrite Hen, Ht, Hpl. cbn. by rewrite Hst.
Qed.

(** A request that passes both checks and whose worker thread the runtime
    refuses: the exception leaves [speak_async], nothing has changed. *)
Lemma speak_async_refused caps text o w e :
  enabled o = true -> truthy (strip text) = true -> is_playing o = false ->
  cap_thread_start caps (tick w) (length (threads w)) = Raises e ->
  speak_async caps text (o, w) = (Raise e, (o, w)).
Proof.
  intros Hen Ht Hpl Hst. unfold speak_async, bind, get_self, Thread_start, ret. cbn.
  rewrite Hen, Ht, Hpl. cbn. by rewrite Hst.
Qed.

Lemma run_thread_worker caps i text o w :
  threads w !! i = Some (tts_worker_thread text) ->
  run_thread caps i (o, w) = tts_worker caps text (o, with_threads (delete i (threads w)) w).
Proof.
  intros H. unfold run_thread, bind at 1, get_world. cbn -[bind]. rewrite H.
  reflexivity.
Qed.

(** The playback thread after its first statement: playback, clean-up, flag. *)
Lemma play_audio_thread_rest_run caps p o w :
  exists b w1,
    _play_audio_sync caps p (o, w) = (Ok b, (o, w1)) /\ mixer_frame w w1 /\
    _play_audio_thread_rest caps p (o, w) =
      (Ok tt,
       let s := after_thread_clean_up p (o, w1) in
       (with_is_playing false s.1,
        if b then s.2 else with_stdout (stdout s.2 ++ ["TTS: Audio playback failed"]) s.2)).
Proof.
  destruct (play_audio_sync_run caps p o w) as (b & w1 & Hrun & Hf & _).
  exists b, w1. split; [done|]. split; [done|].
  unfold _play_audio_thread_rest, bind. rewrite Hrun, play_thread_clean_up_run.
  unfold after_thread_clean_up, get_self, put_self, print, ret. cbn.
  case_bool_decide; by destruct b.
Qed.

Lemma after_thread_clean_up_frame p o w :
  let s := after_thread_clean_up p (o, w) in
  threads s.2 = threads w /\ save_calls s.2 = save_calls w /\ locked s.2 = locked w /\
  voice s.1 = voice o /\ enabled s.1 = enabled o /\ is_playing s.1 = is_playing o.
Proof.
  unfold after_thread_clean_up. cbn. case_bool_decide; cbn; [|done].
  rewrite unlinked_rest. cbn.
  case_bool_decide; [|done]. by destruct (list_remove p (_temp_files o)).
Qed.

(** What the clean-up block of the playback thread does to the file and to
    the list. *)
Lemma after_thread_clean_up_cases p o w :
  if bool_decide (p ∈ _temp_files o) then
    if bool_decide (is_Some (fs w !! p) /\ p ∉ locked w)
    then fs (snd (after_thread_clean_up p (o, w))) = delete p (fs w) /\
         list_remove p (_temp_files o)
           = Some (_temp_files (fst (after_thread_clean_up p (o, w))))
    else after_thread_clean_up p (o, w) = (o, w)
  else after_thread_clean_up p (o, w) = (o, w).
Proof.
  unfold after_thread_clean_up, unlinked. cbn.
  case_bool_decide as Hin; [|done].
  case_bool_decide as Hdel.
  - destruct Hdel as [[n Hn] Hnl]. rewrite Hn, bool_decide_eq_false_2 by done. cbn.
    destruct (list_remove p (_temp_files o)) as [l|] eqn:Hr; [done|].
    by apply list_remove_None in Hr.
  - destruct (fs w !! p) as [n|] eqn:Hn; [|done].
    case_bool_decide as Hl; [done|]. exfalso. apply Hdel. eauto.
Qed.

(** The whole playback thread: flag, playback, clean-up, flag. *)
Lemma play_audio_thread_run caps p o w :
  exists (b : bool) w1,
    fs w1 = fs w /\ locked w1 = locked w /\
    _play_audio_thread caps p (o, w) =
      (Ok tt,
       (with_is_playing false (fst (after_thread_clean_up p (with_is_playing true o, w1))),
        if b then snd (after_thread_clean_up p (with_is_playing true o, w1))
        else with_stdout
               (stdout (snd (after_thread_clean_up p (with_is_playing true o, w1)))
                ++ ["TTS: Audio playback failed"])
               (snd (after_thread_clean_up p (with_is_playing true o, w1))))).
Proof.
  unfold _play_audio_thread, bind, get_self, put_self. cbn.
  destruct (play_audio_thread_rest_run caps p (with_is_playing true o) w)
    as (b & w1 & _ & [Hfs Hl _ _ _] & ->).
  by exists b, w1.
Qed.

(** The worker never raises, leaves the flag alone, and starts a playback
    thread only after one call of the synthesis capability. *)
Lemma tts_worker_spawn caps text o w :
  exists o' w', tts_worker caps text (o, w) = (Ok tt, (o', w')) /\
    is_playing o' = is_playing o /\
    (threads w' = threads w \/
     exists p, threads w' = (threads w ++ [play_thread p false])%list /\
               save_calls w' = S (save_calls w)).
Proof.
  unfold tts_worker, try_except, bind, new_event_loop. cbn.
  destruct (cap_new_event_loop caps (tick w)); cbn.
  2:{ eexists _, _. split; [reflexivity|]. split; [done|by left]. }
  pose proof (synthesize_run caps text o (ticked w)) as Hs.
  destruct (negb (truthy (strip text))).
  { rewrite Hs. cbn. eexists _, _. split; [reflexivity|]. split; [done|by left]. }
  destruct (mkstemp_inner _ _ _ _ _) as [[p k]|].
  2:{ destruct Hs as (w' & -> & [_ Hth _ _ _ _] & _). cbn.
      eexists _, _. split; [reflexivity|]. split; [done|by left]. }
  destruct (cap_save _ _ _ _) as [n|n e].
  - destruct Hs as (w' & -> & [_ Hth _ _ _ _] & _ & Hsc & _). destruct (0 <? n)%N; cbn.
    + destruct (truthy_path p); cbn.
      * unfold Thread_start. cbn.
        destruct (cap_thread_start caps (tick w') (length (threads w'))); cbn;
          eexists _, _; (split; [reflexivity|]); (split; [done|]).
        -- right. exists p. cbn. by rewrite Hth, Hsc.
        -- by left.
      * eexists _, _. split; [reflexivity|]. split; [done|by left].
    + eexists _, _. split; [reflexivity|]. split; [done|by left].
  - destruct Hs as (w' & -> & [_ Hth _ _ _ _] & _). cbn.
    eexists _, _. split; [reflexivity|]. split; [done|by left].
Qed.

Lemma speak_sync_total caps text o w :
  exists b o' w', speak_sync caps text (o, w) = (Ok b, (o', w')).
Proof.
  unfold speak_sync, bind at 1, get_self. cbn -[bind try_except].
  destruct (negb (enabled o) || negb (truthy (strip text))); [by eexists _, _, _|].
  unfold try_except, bind, new_event_loop. cbn.
  destruct (cap_new_event_loop caps (tick w)); cbn.
  2:{ by eexists _, _, _. }
  pose proof (synthesize_run caps text o (ticked w)) as Hs.
  destruct (negb (truthy (strip text))).
  { rewrite Hs. cbn. by eexists _, _, _. }
  destruct (mkstemp_inner _ _ _ _ _) as [[p k]|].
  2:{ destruct Hs as (w' & -> & _). cbn. by eexists _, _, _. }
  destruct (cap_save _ _ _ _) as [n|n e].
  2:{ destruct Hs as (w' & -> & _). cbn. by eexists _, _, _. }
  destruct Hs as (w' & -> & _). destruct (0 <? n)%N; cbn.
  2:{ by eexists _, _, _. }
  destruct (truthy_path p); cbn; [|by eexists _, _, _].
  destruct (play_audio_sync_run caps p (with_temp_files (_temp_files o ++ [p]) o) w')
    as (b & w2 & -> & _).
  rewrite speak_sync_clean_up_run. cbn. by eexists _, _, _.
Qed.

(** What a call of [speak_sync] that reaches the playback step has done. *)
Lemma speak_sync_played caps text o w p k n :
  enabled o = true -> truthy (strip text) = true ->
  cap_new_event_loop caps (tick w) = Returns ->
  mkstemp_inner (cap_tmp_name caps) ".mp3" (fs w) (cap_tmp_max caps) (tmp_next w) = Some (p, k) ->
  cap_save caps (S (tick w)) text (voice o) = SaveOk n -> (0 <? n)%N = true ->
  exists b w2,
    fs w2 = <[p := n]> (fs w) /\ locked w2 = locked w /\
    speak_sync caps text (o, w) =
      (Ok b, after_sync_clean_up p (with_temp_files (_temp_files o ++ [p]) o, w2)).
Proof.
  intros Hen Ht Hloop Hmk Hsave Hn.
  unfold speak_sync, bind at 1, get_self. cbn -[bind try_except].
  rewrite Hen, Ht. cbn -[bind try_except].
  unfold try_except, bind, new_event_loop. cbn. rewrite Hloop.
  pose proof (synthesize_run caps text o (ticked w)) as Hs.
  rewrite Ht in Hs. cbn in Hs. rewrite Hmk, Hsave, Hn in Hs.
  destruct Hs as (w1 & -> & Hsf & Hfs1 & _).
  destruct (mkstemp_inner_fresh _ _ _ _ _ _ _ Hmk) as (_ & j & ->).
  cbn. rewrite truthy_path_suffix.
  destruct (play_audio_sync_run caps (cap_tmp_name caps j ++ ".mp3")
              (with_temp_files (_temp_files o ++ [cap_tmp_name caps j ++ ".mp3"]) o) w1)
    as (b & w2 & -> & Hf & _).
  rewrite speak_sync_clean_up_run. cbn.
  exists b, w2. destruct Hf as [Hfs2 Hl2 _ _ _]. destruct Hsf as [Hl1 _ _ _ _ _].
  split; [by rewrite Hfs2|]. split; [by rewrite Hl2|]. done.
Qed.

Lemma speak_sync_true_inv caps text o w o' w' :
  speak_sync caps text (o, w) = (Ok true, (o', w')) ->
  exists p k n w2,
    mkstemp_inner (cap_tmp_name caps) ".mp3" (fs w) (cap_tmp_max caps) (tmp_next w) = Some (p, k) /\
    fs w2 = <[p := n]> (fs w) /\ locked w2 = locked w /\
    (o', w') = after_sync_clean_up p (with_temp_files (_temp_files o ++ [p]) o, w2).
Proof.
  intros Hrun.
  destruct (enabled o) eqn:Hen.
  2:{ unfold speak_sync, bind, get_self, ret in Hrun. cbn in Hrun. by rewrite Hen in Hrun. }
  destruct (truthy (strip text)) eqn:Ht.
  2:{ unfold speak_sync, bind, get_self, ret in Hrun. cbn in Hrun.
      by rewrite Hen, Ht in Hrun. }
  destruct (cap_new_event_loop caps (tick w)) eqn:Hloop.
  2:{ open_speak_sync Hrun Hen Ht. by rewrite Hloop in Hrun. }
  destruct (mkstemp_inner (cap_tmp_name caps) ".mp3" (fs w) (cap_tmp_max caps) (tmp_next w))
    as [[p k]|] eqn:Hmk.
  2:{ pose proof (synthesize_run caps text o (ticked w)) as Hs.
      rewrite Ht in Hs. cbn in Hs. rewrite Hmk in Hs. destruct Hs as (w1 & Hs & _).
      open_speak_sync Hrun Hen Ht. by rewrite Hloop, Hs in Hrun. }
  destruct (cap_save caps (S (tick w)) text (voice o)) as [n|n e] eqn:Hsave.
  2:{ pose proof (synthesize_run caps text o (ticked w)) as Hs.
      rewrite Ht in Hs. cbn in Hs. rewrite Hmk, Hsave in Hs. destruct Hs as (w1 & Hs & _).
      open_speak_sync Hrun Hen Ht. by rewrite Hloop, Hs in Hrun. }
  destruct (0 <? n)%N eqn:Hn.
  2:{ pose proof (synthesize_run caps text o (ticked w)) as Hs.
      rewrite Ht in Hs. cbn in Hs. rewrite Hmk, Hsave, Hn in Hs. destruct Hs as (w1 & Hs & _).
      open_speak_sync Hrun Hen Ht. by rewrite Hloop, Hs in Hrun. }
  destruct (speak_sync_played caps text o w p k n Hen Ht Hloop Hmk Hsave Hn)
    as (b & w2 & Hfs & Hl & Hrun').
  rewrite Hrun' in Hrun. apply pair_equal_spec in Hrun as [_ Hst].
  exists p, k, n, w2. done.
Qed.

(** *** Lists and schedules *)

Lemma app_snoc_ne {A} (l : list A) x : (l ++ [x])%list <> l.
Proof.
  intros H. apply (f_equal length) in H. rewrite length_app in H. simpl in H. lia.
Qed.

Lemma run_thread_playing_out caps n i s :
  playing_out n s -> playing_out n (snd (run_thread caps i s)).
Proof.
  destruct s as [o w]. intros [Hn Hth]. cbn in Hn, Hth.
  unfold run_thread, bind at 1, get_world. cbn -[bind].
  destruct Hth as [Hth | [p Hth]]; rewrite Hth.
  - rewrite lookup_nil. cbn. split; [done|by left].
  - destruct i as [|i]; cbn -[bind]; [|split; [done|right; eauto]].
    unfold bind, put_world. cbn.
    destruct (play_audio_thread_rest_run caps p o (with_threads [] w))
      as (b & w1 & _ & [_ _ _ Hsave Hthr] & ->).
    pose proof (after_thread_clean_up_frame p o w1) as (Ht' & Hs' & _).
    cbn in *. split.
    + destruct b; cbn; congruence.
    + left. destruct b; cbn; congruence.
Qed.

Lemma run_schedule_playing_out caps n sched : forall s,
  playing_out n s -> playing_out n (snd (run_schedule caps sched s)).
Proof.
  induction sched as [|i sched IH]; intros s H; [done|].
  cbn. unfold bind.
  pose proof (run_thread_playing_out caps n i s H) as H'.
  destruct (run_thread caps i s) as [[[]|e] s'] eqn:E; cbn in H'.
  - by apply IH.
  - done.
Qed.

(** ** Worked examples *)

(** The scenario of the test notes: synthesis writes 100 bytes, the device is
    busy for two polls; [speak_sync] returns [True] after 200 ms and leaves
    neither the file nor an entry of [_temp_files]. *)
Example scenario_speak_sync_privet :
  fst (speak_sync demo_ok privet (demo_self, demo_world)) = Ok true /\
  fs (snd (snd (speak_sync demo_ok privet (demo_self, demo_world)))) = ∅ /\
  _temp_files (fst (snd (speak_sync demo_ok privet (demo_self, demo_world)))) = [] /\
  clock (snd (snd (speak_sync demo_ok privet (demo_self, demo_world)))) = 200%N.
Proof. vm_compute. done. Qed.

(** When [save] raises, the empty temporary file stays on disk and no list
    tracks it. *)
Example raising_save_leaves_untracked_file :
  fst (speak_sync demo_raising (of_ascii "hello") (demo_self, demo_world)) = Ok false /\
  fs (snd (snd (speak_sync demo_raising (of_ascii "hello") (demo_self, demo_world))))
    !! "/tmp/tmp0.mp3" = Some 0%N /\
  _temp_files (fst (snd (speak_sync demo_raising (of_ascii "hello") (demo_self, demo_world))))
    = [].
Proof. vm_compute. done. Qed.

(** ** The claims *)

(** C1, as stated, fails: when [save] returns and leaves an empty file,
    [speak_sync "hello"] returns [False] but the file is still on disk and
    its path is still in [_temp_files]. *)
Lemma empty_output_stays_tracked :
  synthesis_failed (SaveOk 0) /\
  fst (speak_sync demo_empty (of_ascii "hello") (demo_self, demo_world)) = Ok false /\
  fs (snd (snd (speak_sync demo_empty (of_ascii "hello") (demo_self, demo_world))))
    !! "/tmp/tmp0.mp3" = Some 0%N /\
  _temp_files (fst (snd (speak_sync demo_empty (of_ascii "hello") (demo_self, demo_world))))
    = ["/tmp/tmp0.mp3"].
Proof. vm_compute. done. Qed.

(** C1, amended: if the synthesis capability always fails, [speak_sync]
    returns [False] and never raises.  [_temp_files] is then either
    unchanged, or, when [save] returned and left an empty file, extended by
    the path of that file, which is on disk with size 0 and which a later
    [cleanup] deletes unless the OS refuses; when [save] only ever raises,
    [_temp_files] is unchanged. *)
Theorem speak_sync_failed_synthesis caps text o w :
  (forall k t v, synthesis_failed (cap_save caps k t v)) ->
  exists o' w',
    speak_sync caps text (o, w) = (Ok false, (o', w')) /\
    (_temp_files o' = _temp_files o \/
     exists p,
       cap_save caps (S (tick w)) text (voice o) = SaveOk 0 /\
       fs w !! p = None /\ fs w' = <[p := 0%N]> (fs w) /\
       _temp_files o' = (_temp_files o ++ [p])%list /\
       (p ∉ locked w -> exists s'', cleanup (o', w') = (Ok tt, s'') /\ fs (snd s'') !! p = None)) /\
    ((forall k t v n, cap_save caps k t v <> SaveOk n) -> _temp_files o' = _temp_files o).
Proof.
  intros Hfail.
  unfold speak_sync, bind at 1, get_self. cbn -[bind try_except].
  destruct (negb (enabled o) || negb (truthy (strip text))).
  { exists o, w. split; [done|]. split; [by left|done]. }
  unfold try_except, bind, new_event_loop. cbn.
  destruct (cap_new_event_loop caps (tick w)); cbn.
  2:{ eexists _, _. split; [reflexivity|]. split; [by left|done]. }
  pose proof (synthesize_run caps text o (ticked w)) as Hs.
  destruct (negb (truthy (strip text))).
  { rewrite Hs. cbn. eexists _, _. split; [reflexivity|]. split; [by left|done]. }
  cbn in Hs.
  destruct (mkstemp_inner _ _ _ _ _) as [[p k]|] eqn:Hmk.
  2:{ destruct Hs as (w' & -> & _). cbn. eexists _, _. split; [reflexivity|].
      split; [by left|done]. }
  pose proof (Hfail (S (tick w)) text (voice o)) as Hf.
  destruct (cap_save caps (S (tick w)) text (voice o)) as [n|n e] eqn:Hsave.
  - cbn in Hf. subst n. destruct Hs as (w' & -> & Hsf & Hfs & _). cbn.
    eexists _, _. split; [reflexivity|]. split.
    + right. exists p. destruct (mkstemp_inner_fresh _ _ _ _ _ _ _ Hmk) as (Hfresh & _).
      split; [done|]. split; [done|]. split; [done|]. split; [done|].
      intros Hl. eexists. split; [apply cleanup_run|].
      cbn. rewrite swept_fs, bool_decide_eq_true_2; [done|].
      split; [apply elem_of_snoc|]. by destruct Hsf as [-> _ _ _ _ _].
    + intros Hnever. by destruct (Hnever _ _ _ _ Hsave).
  - destruct Hs as (w' & -> & _). cbn. eexists _, _. split; [reflexivity|].
    split; [by left|done].
Qed.

(** The amended C1 at a synthesis capability that raises. *)
Lemma speak_sync_failed_synthesis_witness :
  exists o' w',
    speak_sync demo_raising (of_ascii "hello") (demo_self, demo_world) =
      (Ok false, (o', w')) /\
    (_temp_files o' = _temp_files demo_self \/
     exists p,
       cap_save demo_raising (S (tick demo_world)) (of_ascii "hello") (voice demo_self)
         = SaveOk 0 /\
       fs demo_world !! p = None /\ fs w' = <[p := 0%N]> (fs demo_world) /\
       _temp_files o' = (_temp_files demo_self ++ [p])%list /\
       (p ∉ locked demo_world ->
        exists s'', cleanup (o', w') = (Ok tt, s'') /\ fs (snd s'') !! p = None)) /\
    ((forall k t v n, cap_save demo_raising k t v <> SaveOk n) ->
     _temp_files o' = _temp_files demo_self).
Proof.
  apply (speak_sync_failed_synthesis demo_raising (of_ascii "hello") demo_self demo_world).
  intros k t v. simpl. exact I.
Defined.

(** C2, as stated, fails: a zero-byte output is reported as no result, and
    yet its path has been added to [_temp_files]. *)
Lemma synthesize_registers_empty_output :
  fst (_synthesize_async demo_empty (of_ascii "hello") (demo_self, demo_world)) = Ok None /\
  _temp_files (fst (snd (_synthesize_async demo_empty (of_ascii "hello")
                           (demo_self, demo_world)))) = ["/tmp/tmp0.mp3"] /\
  fs (snd (snd (_synthesize_async demo_empty (of_ascii "hello") (demo_self, demo_world))))
    !! "/tmp/tmp0.mp3" = Some 0%N.
Proof. vm_compute. done. Qed.

(** C2, amended: the synthesis step never raises and adds the path of the
    temporary file to [_temp_files] exactly when the text is not blank, a
    temporary file could be created and [save] returned, before it looks at
    the file.  So a returned path is registered and names a non-empty file,
    and "no result" leaves [_temp_files] unchanged or extended by the path of
    an empty file.  Registered paths leave the list again: [cleanup] empties
    it, and the playback thread run on a returned path, not registered
    before, removes that one entry and the file when the deletion succeeds,
    and keeps both when the OS refuses the deletion. *)
Theorem synthesize_registration caps text o w :
  exists r o' w',
    _synthesize_async caps text (o, w) = (Ok r, (o', w')) /\
    match r with
    | Some p =>
        _temp_files o' = (_temp_files o ++ [p])%list /\
        exists n, fs w' !! p = Some n /\ (0 < n)%N
    | None =>
        _temp_files o' = _temp_files o \/
        exists p, _temp_files o' = (_temp_files o ++ [p])%list /\ fs w' !! p = Some 0%N
    end /\
    (_temp_files o' <> _temp_files o <->
     truthy (strip text) = true /\
     exists p k n,
       mkstemp_inner (cap_tmp_name caps) ".mp3" (fs w) (cap_tmp_max caps) (tmp_next w)
         = Some (p, k) /\
       cap_save caps (tick w) text (voice o) = SaveOk n) /\
    (exists s'', cleanup (o', w') = (Ok tt, s'') /\ _temp_files (fst s'') = []) /\
    (forall p, r = Some p -> p ∉ _temp_files o ->
       exists o2 w2,
         _play_audio_thread caps p (o', w') = (Ok tt, (o2, w2)) /\
         if bool_decide (p ∈ locked w)
         then _temp_files o2 = (_temp_files o ++ [p])%list /\ is_Some (fs w2 !! p)
         else _temp_files o2 = _temp_files o /\ fs w2 !! p = None).
Proof.
  pose proof (synthesize_run caps text o w) as Hs.
  destruct (truthy (strip text)) eqn:Ht; cbn in Hs.
  2:{ exists None, o, w. split; [done|]. split; [by left|]. split.
      - split; [done|]. by intros [? _].
      - split; [|done]. eexists. split; [apply cleanup_run|done]. }
  destruct (mkstemp_inner _ _ _ _ _) as [[p k]|] eqn:Hmk.
  2:{ destruct Hs as (w' & Hs & _). exists None, o, w'. split; [done|]. split; [by left|].
      split.
      - split; [done|]. by intros (_ & ? & ? & ? & ? & _).
      - split; [|done]. eexists. split; [apply cleanup_run|done]. }
  destruct (cap_save caps (tick w) text (voice o)) as [n|n e] eqn:Hsave.
  2:{ destruct Hs as (w' & Hs & _). exists None, o, w'. split; [done|]. split; [by left|].
      split.
      - split; [done|]. by intros (_ & ? & ? & ? & _ & ?).
      - split; [|done]. eexists. split; [apply cleanup_run|done]. }
  destruct Hs as (w' & Hs & Hsf & Hfs & _).
  eexists _, _, w'. split; [exact Hs|]. cbn -[cleanup _play_audio_thread].
  assert (fs w' !! p = Some n) as Hp by (by rewrite Hfs, lookup_insert_eq).
  split; [|split; [|split]].
  - destruct (0 <? n)%N eqn:Hn.
    + split; [done|]. exists n. split; [done|]. by apply N.ltb_lt.
    + right. exists p. split; [done|]. apply N.ltb_ge in Hn.
      rewrite Hp. f_equal. lia.
  - split; [|intros _; apply app_snoc_ne]. intros _. split; [done|]. by exists p, k, n.
  - eexists. split; [apply cleanup_run|done].
  - intros q Hq Hfresh. destruct (0 <? n)%N; [|done]. injection Hq as <-.
    destruct (play_audio_thread_run caps p (with_temp_files (_temp_files o ++ [p]) o) w')
      as (b & w1 & Hfs1 & Hl1 & Hrun).
    pose proof (after_thread_clean_up_cases p
                  (with_is_playing true (with_temp_files (_temp_files o ++ [p]) o)) w1) as Hc.
    cbn in Hc. rewrite (bool_decide_eq_true_2 (p ∈ _)) in Hc by apply elem_of_snoc.
    destruct Hsf as [Hl _ _ _ _ _]. rewrite Hfs1, Hl1, Hl, Hp in Hc.
    eexists _, _. split; [exact Hrun|].
    destruct (decide (p ∈ locked w)) as [Hlk|Hlk].
    + rewrite (bool_decide_eq_true_2 _ Hlk).
      rewrite (bool_decide_eq_false_2 (_ /\ _)) in Hc by (by intros [_ ?]).
      rewrite Hc. cbn. split; [done|]. destruct b; cbn; rewrite Hfs1, Hp; eauto.
    + rewrite (bool_decide_eq_false_2 _ Hlk).
      rewrite (bool_decide_eq_true_2 (_ /\ _)) in Hc by eauto.
      destruct Hc as [Hdel Hrm]. rewrite list_remove_snoc_fresh in Hrm by done.
      injection Hrm as Hrm. cbn. split; [done|].
      destruct b; cbn; rewrite Hdel; apply lookup_delete_eq.
Qed.

(** C3, as stated, fails: a second request that arrives while the first is
    still synthesizing finds the flag unset, starts a second worker, and the
    synthesis capability is called twice. *)
Lemma second_request_during_synthesis_not_dropped :
  threads (snd (snd (speak_async demo_ok (of_ascii "a") (demo_self, demo_world))))
    = [tts_worker_thread (of_ascii "a")] /\
  threads (snd (snd ((speak_async demo_ok (of_ascii "a") ;;; speak_async demo_ok (of_ascii "b"))
                       (demo_self, demo_world))))
    = [tts_worker_thread (of_ascii "a"); tts_worker_thread (of_ascii "b")] /\
  save_calls (snd (snd ((speak_async demo_ok (of_ascii "a") ;;;
                         speak_async demo_ok (of_ascii "b") ;;;
                         run_schedule demo_ok [0; 0; 0; 0; 0; 0])
                          (demo_self, demo_world)))) = 2.
Proof. vm_compute. done. Qed.

(** C3, amended: a request that arrives while [is_playing] is set, that is,
    after the playback thread of the previous request has executed its first
    statement and before it has finished, is dropped.  From an idle, enabled
    object with no thread running: once the first request is playing, a
    second [speak_async] changes nothing, and however the remaining threads
    are scheduled the synthesis capability has been called exactly once. *)
Theorem second_request_dropped_while_playing caps t1 t2 o w :
  enabled o = true -> is_playing o = false -> truthy (strip t1) = true -> threads w = [] ->
  is_playing (fst (first_request_started caps t1 (o, w))) = true ->
  speak_async caps t2 (first_request_started caps t1 (o, w)) =
    (Ok tt, first_request_started caps t1 (o, w)) /\
  forall sched,
    save_calls (snd (snd (run_schedule caps sched (first_request_started caps t1 (o, w)))))
    = S (save_calls w).
Proof.
  intros Hen Hpl Ht Hth Hplaying.
  assert (playing_out (S (save_calls w)) (first_request_started caps t1 (o, w))) as Hinv.
  { revert Hplaying. unfold first_request_started. rewrite bind_eq.
    destruct (cap_thread_start caps (tick w) (length (threads w))) as [|e] eqn:Hst.
    2:{ rewrite (speak_async_refused caps t1 o w e Hen Ht Hpl Hst). cbn. congruence. }
    rewrite (speak_async_starts caps t1 o w Hen Ht Hpl Hst), Hth. cbn [app]. cbv beta iota.
    rewrite bind_eq, (run_thread_worker caps 0 t1) by done.
    match goal with
    | |- context [tts_worker caps t1 (o, ?w0)] =>
        destruct (tts_worker_spawn caps t1 o w0) as (o' & w' & -> & Hpl' & Hsp)
    end.
    cbn in Hsp.
    unfold run_thread, bind, get_world, put_world, get_self, put_self. cbn.
    destruct Hsp as [Hsame | (p & Hnew & Hsave)].
    - rewrite Hsame. cbn. congruence.
    - rewrite Hnew. cbn. intros _. split; [done|right; eauto]. }
  split.
  - destruct (first_request_started caps t1 (o, w)) as [o1 w1].
    by apply speak_async_playing.
  - intros sched. by destruct (run_schedule_playing_out caps _ sched _ Hinv) as [? _].
Qed.

(** The amended C3 on the requests "a" and "b". *)
Lemma second_request_dropped_while_playing_witness :
  speak_async demo_ok (of_ascii "b")
    (first_request_started demo_ok (of_ascii "a") (demo_self, demo_world)) =
    (Ok tt, first_request_started demo_ok (of_ascii "a") (demo_self, demo_world)) /\
  forall sched,
    save_calls (snd (snd (run_schedule demo_ok sched
      (first_request_started demo_ok (of_ascii "a") (demo_self, demo_world)))))
    = S (save_calls demo_world).
Proof.
  apply (second_request_dropped_while_playing demo_ok (of_ascii "a") (of_ascii "b")
           demo_self demo_world);
    vm_compute; reflexivity.
Defined.

(** C4 fails on the code.  [speak_async] starts its worker thread outside
    any [try]: when the runtime refuses the thread, the [RuntimeError]
    reaches the caller of [speak_async].  The worker, whose own start of the
    playback thread is inside its [try], swallows the same failure. *)
Lemma speak_async_propagates_start_failure :
  speak_async demo_no_threads (of_ascii "hello") (demo_self, demo_world)
    = (Raise RuntimeError, (demo_self, demo_world)) /\
  fst (tts_worker demo_no_threads (of_ascii "hello") (demo_self, demo_world)) = Ok tt.
Proof. vm_compute. done. Qed.

(** C5, as stated, fails: when the OS refuses to delete the artifact,
    [speak_sync] still returns [True] while the file is on disk and its path
    is in [_temp_files]. *)
Lemma speak_sync_true_leaves_locked_file :
  fst (speak_sync demo_ok (of_ascii "hello") (demo_self, locked_world)) = Ok true /\
  fs (snd (snd (speak_sync demo_ok (of_ascii "hello") (demo_self, locked_world))))
    !! "/tmp/tmp0.mp3" = Some 100%N /\
  _temp_files (fst (snd (speak_sync demo_ok (of_ascii "hello") (demo_self, locked_world))))
    = ["/tmp/tmp0.mp3"].
Proof. vm_compute. done. Qed.

(** C5, amended: a [speak_sync] call that returns [True] has created a
    temporary file under a name that no file had.  If the OS lets it be
    deleted, the file is gone afterwards, the file system is as before the
    call, and [_temp_files] holds what it held before the call (so the path
    is absent unless an older entry of the same name was pending).  If the
    deletion fails, the error is swallowed: the file stays on disk and its
    path stays in [_temp_files]. *)
Theorem speak_sync_true_artifact caps text o w o' w' :
  speak_sync caps text (o, w) = (Ok true, (o', w')) ->
  exists p k,
    mkstemp_inner (cap_tmp_name caps) ".mp3" (fs w) (cap_tmp_max caps) (tmp_next w) = Some (p, k) /\
    fs w !! p = None /\
    if bool_decide (p ∈ locked w)
    then is_Some (fs w' !! p) /\ _temp_files o' = (_temp_files o ++ [p])%list
    else fs w' !! p = None /\ fs w' = fs w /\
         _temp_files o' ≡ₚ _temp_files o /\
         (p ∉ _temp_files o -> p ∉ _temp_files o').
Proof.
  intros Hrun.
  destruct (speak_sync_true_inv _ _ _ _ _ _ Hrun) as (p & k & n & w2 & Hmk & Hfs & Hl & Hst).
  destruct (mkstemp_inner_fresh _ _ _ _ _ _ _ Hmk) as (Hfresh & _).
  exists p, k. split; [done|]. split; [done|].
  unfold after_sync_clean_up, unlinked in Hst. cbn in Hst.
  rewrite Hfs, Hl, lookup_insert_eq in Hst.
  destruct (decide (p ∈ locked w)) as [Hlk|Hlk].
  - rewrite (bool_decide_eq_true_2 _ Hlk).
    rewrite (bool_decide_eq_false_2 (_ /\ _)) in Hst by (by intros [_ ?]).
    rewrite (bool_decide_eq_true_2 _ Hlk) in Hst.
    injection Hst as -> ->. rewrite Hfs, lookup_insert_eq. eauto.
  - rewrite (bool_decide_eq_false_2 _ Hlk).
    rewrite (bool_decide_eq_true_2 (_ /\ _)) in Hst by eauto.
    rewrite (bool_decide_eq_false_2 _ Hlk) in Hst.
    destruct (list_remove_snoc p (_temp_files o)) as (l' & Hr & Hperm).
    rewrite Hr in Hst. injection Hst as -> ->. cbn.
    rewrite delete_insert_id by done.
    split; [done|]. split; [done|]. split; [done|].
    intros Hnot. by rewrite Hperm.
Qed.

(** The amended C5 on a call that returns [True]. *)
Lemma speak_sync_true_artifact_witness :
  exists p k,
    mkstemp_inner (cap_tmp_name demo_ok) ".mp3" (fs demo_world) (cap_tmp_max demo_ok)
      (tmp_next demo_world) = Some (p, k) /\
    fs demo_world !! p = None /\
    if bool_decide (p ∈ locked demo_world)
    then is_Some (fs (snd demo_sync_end) !! p) /\
         _temp_files (fst demo_sync_end) = (_temp_files demo_self ++ [p])%list
    else fs (snd demo_sync_end) !! p = None /\ fs (snd demo_sync_end) = fs demo_world /\
         _temp_files (fst demo_sync_end) ≡ₚ _temp_files demo_self /\
         (p ∉ _temp_files demo_self -> p ∉ _temp_files (fst demo_sync_end)).
Proof.
  apply (speak_sync_true_artifact demo_ok (of_ascii "hello") demo_self demo_world
           (fst demo_sync_end) (snd demo_sync_end)).
  vm_compute. reflexivity.
Defined.

(** C6, as stated, fails: a tracked file that exists and whose deletion the
    OS refuses is still on disk after [cleanup], which has emptied
    [_temp_files] all the same. *)
Lemma cleanup_forgets_undeletable_file :
  fst (cleanup (stuck_self, stuck_world)) = Ok tt /\
  _temp_files (fst (snd (cleanup (stuck_self, stuck_world)))) = [] /\
  fs stuck_world !! "/tmp/tmp0.mp3" = Some 100%N /\
  fs (snd (snd (cleanup (stuck_self, stuck_world)))) !! "/tmp/tmp0.mp3" = Some 100%N.
Proof. vm_compute. done. Qed.

(** C6, amended: [cleanup] never raises and empties [_temp_files], in every
    state; it changes nothing but the file system; every tracked file whose
    deletion the OS does not refuse is gone afterwards, whatever happens
    with the other entries (missing files, refused deletions); files whose
    deletion is refused, and files that are not tracked, are as before. *)
Theorem cleanup_sweeps_everything o w :
  exists w',
    cleanup (o, w) = (Ok tt, (with_temp_files [] o, w')) /\
    w' = with_fs (fs w') w /\
    (forall p, p ∈ _temp_files o -> p ∉ locked w -> fs w' !! p = None) /\
    (forall p, p ∈ locked w \/ p ∉ _temp_files o -> fs w' !! p = fs w !! p).
Proof.
  exists (swept (_temp_files o) w). split; [apply cleanup_run|].
  split; [apply swept_rest|]. split.
  - intros p Hin Hl. rewrite swept_fs. by rewrite bool_decide_eq_true_2.
  - intros p H. rewrite swept_fs. rewrite bool_decide_eq_false_2; [done|].
    intros [? ?]. by destruct H.
Qed.

(** C7: when the text is empty or consists of whitespace only, and likewise
    when [enabled] is false, [speak_async] and [speak_sync] leave the object
    and the world exactly as they were (no thread started, no call of the
    synthesis or playback capability counted), and [speak_sync] returns
    [False]. *)
Theorem speak_is_noop_when_blank_or_disabled caps text o w :
  forallb isspace text = true \/ enabled o = false ->
  speak_async caps text (o, w) = (Ok tt, (o, w)) /\
  speak_sync caps text (o, w) = (Ok false, (o, w)).
Proof.
  intros H.
  assert (negb (enabled o) || negb (truthy (strip text)) = true) as Hgate.
  { destruct H as [H | H].
    - apply blank_iff in H. rewrite H. apply orb_true_r.
    - by rewrite H. }
  unfold speak_async, speak_sync, bind, get_self, ret. cbn. by rewrite Hgate.
Qed.

(** C7 on a text of a space, a tab and a newline. *)
Lemma speak_is_noop_when_blank_or_disabled_witness :
  speak_async demo_ok [32; 9; 10]%N (demo_self, demo_world)
    = (Ok tt, (demo_self, demo_world)) /\
  speak_sync demo_ok [32; 9; 10]%N (demo_self, demo_world) =
    (Ok false, (demo_self, demo_world)).
Proof.
  apply (speak_is_noop_when_blank_or_disabled demo_ok [32; 9; 10]%N demo_self demo_world).
  left. reflexivity.
Defined.

(** C8: [_play_audio_sync] never raises.  When the file is missing it returns
    [False] and touches nothing.  Otherwise it returns [True] exactly when
    the mixer is initialised, [load] and [play] return and no poll fails; in
    that case it has called [load], [play] and then [get_busy] until the
    first answer "not busy", sleeping 100 ms after each answer "busy", and
    the device is idle at the end.  The file system is unchanged. *)
Theorem play_audio_sync_contract caps p o w :
  match fs w !! p with
  | None => _play_audio_sync caps p (o, w) = (Ok false, (o, w))
  | Some _ =>
      exists b w',
        _play_audio_sync caps p (o, w) = (Ok b, (o, w')) /\
        fs w' = fs w /\
        (b = true <-> play_ok caps p w) /\
        (b = true ->
           clock w' = (clock w + 100 * N.of_nat (length (cap_track caps (S (tick w)))))%N /\
           mixer_calls w' = mixer_calls w + 2 + S (length (cap_track caps (S (tick w)))) /\
           music_busy w' = [])
  end.
Proof.
  destruct (play_audio_sync_run caps p o w) as (b & w' & Hrun & Hf & Hnone & Hsome).
  destruct (fs w !! p) as [n|] eqn:Hp.
  - destruct Hsome as [Hiff Hclk]; [eauto|]. exists b, w'.
    split; [done|]. split; [by destruct Hf|]. split; [done|].
    intros Hb. by destruct (Hclk Hb) as (? & ? & ? & _).
  - destruct Hnone as [-> ->]; done.
Qed.

(** C9, as stated, fails.  When the path is not in [_temp_files], the
    playback thread does not attempt the deletion: a file that the OS would
    let go stays on disk.  And when the path is in [_temp_files] but the
    deletion fails, the path is not removed from the list. *)
Lemma play_thread_keeps_untracked_file :
  ("/tmp/a.mp3" ∉ locked untracked_world) /\
  fs (snd (snd (_play_audio_thread demo_ok "/tmp/a.mp3" (demo_self, untracked_world))))
    !! "/tmp/a.mp3" = Some 100%N /\
  _temp_files (fst (snd (_play_audio_thread demo_ok "/tmp/tmp0.mp3"
                           (stuck_self, stuck_world)))) = ["/tmp/tmp0.mp3"].
Proof. split; [set_solver|]. vm_compute. done. Qed.

(** C9, amended: the playback thread never raises and leaves [is_playing]
    false whatever playback did.  If the path is in [_temp_files] and the
    file exists and the OS lets it be deleted, the file is deleted and one
    occurrence of the path is removed from [_temp_files]; if the deletion
    fails, the error is swallowed and file and list are as before; if the
    path is not in [_temp_files], neither is touched. *)
Theorem play_audio_thread_exit caps p o w :
  exists o' w',
    _play_audio_thread caps p (o, w) = (Ok tt, (o', w')) /\
    is_playing o' = false /\
    if bool_decide (p ∈ _temp_files o) then
      if bool_decide (is_Some (fs w !! p) /\ p ∉ locked w)
      then fs w' = delete p (fs w) /\ list_remove p (_temp_files o) = Some (_temp_files o')
      else fs w' = fs w /\ _temp_files o' = _temp_files o
    else fs w' = fs w /\ _temp_files o' = _temp_files o.
Proof.
  destruct (play_audio_thread_run caps p o w) as (b & w1 & Hfs & Hl & ->).
  pose proof (after_thread_clean_up_cases p (with_is_playing true o) w1) as Hc.
  cbn in Hc. rewrite Hfs, Hl in Hc.
  eexists _, _. split; [reflexivity|]. split; [done|].
  destruct (bool_decide (p ∈ _temp_files o)).
  - destruct (bool_decide (is_Some (fs w !! p) /\ p ∉ locked w)).
    + destruct Hc as [Hdel Hrm]. by destruct b.
    + rewrite Hc. cbn. by destruct b.
  - rewrite Hc. cbn. by destruct b.
Qed.

(** C10: [cleanup] run twice leaves the same object and the same world as
    [cleanup] run once, and [cleanup] on an object whose [_temp_files] is
    empty changes nothing. *)
Theorem cleanup_idempotent o w :
  (cleanup ;;; cleanup) (o, w) = cleanup (o, w) /\
  cleanup (with_temp_files [] o, w) = (Ok tt, (with_temp_files [] o, w)).
Proof.
  unfold bind. rewrite !cleanup_run. split; reflexivity.
Qed.

(** * Further properties *)

(** ** Auxiliary facts *)

(** *** [speak_sync], case by case *)

Lemma reaches_playback_dec caps text o w :
  (exists p n, reaches_playback caps text o w p n) \/
  (forall p n, ~ reaches_playback caps text o w p n).
Proof.
  unfold reaches_playback.
  destruct (enabled o); [|right; by intros p n (? & _)].
  destruct (truthy (strip text)); [|right; by intros p n (_ & ? & _)].
  destruct (cap_new_event_loop caps (tick w)); [|right; by intros p n (_ & _ & ? & _)].
  destruct (mkstemp_inner _ _ _ _ _) as [[p k]|] eqn:Hmk;
    [|right; by intros p n (_ & _ & _ & [? ?] & _)].
  destruct (cap_save caps (S (tick w)) text (voice o)) as [n|n e] eqn:Hsave;
    [|right; by intros q m (_ & _ & _ & _ & ? & _)].
  destruct (decide (0 < n)%N) as [Hn|Hn].
  - left. exists p, n. repeat split; eauto.
  - right. intros q m (_ & _ & _ & _ & [= <-] & ?). done.
Qed.

Lemma reaches_playback_unique caps text o w p n q m :
  reaches_playback caps text o w p n -> reaches_playback caps text o w q m ->
  p = q /\ n = m.
Proof.
  intros (_ & _ & _ & [k Hk] & Hs & _) (_ & _ & _ & [k' Hk'] & Hs' & _).
  rewrite Hk in Hk'. rewrite Hs in Hs'. by injection Hk' as -> _; injection Hs' as ->.
Qed.

(** A call that reaches playback: what synthesis, playback and the clean-up
    have done. *)
Lemma speak_sync_reached caps text o w p n :
  reaches_playback caps text o w p n ->
  exists b w1 w2,
    fs w !! p = None /\
    synth_frame (ticked w) w1 /\ fs w1 = <[p := n]> (fs w) /\
    save_calls w1 = S (save_calls w) /\ tick w1 = S (S (tick w)) /\
    _play_audio_sync caps p (with_temp_files (_temp_files o ++ [p]) o, w1) =
      (Ok b, (with_temp_files (_temp_files o ++ [p]) o, w2)) /\
    mixer_frame w1 w2 /\ (b = true <-> play_ok caps p w1) /\
    speak_sync caps text (o, w) =
      (Ok b, after_sync_clean_up p (with_temp_files (_temp_files o ++ [p]) o, w2)).
Proof.
  intros (Hen & Ht & Hloop & [k Hmk] & Hsave & Hn). apply N.ltb_lt in Hn.
  unfold speak_sync, bind at 1, get_self. cbn -[bind try_except].
  rewrite Hen, Ht. cbn -[bind try_except].
  unfold try_except, bind, new_event_loop. cbn. rewrite Hloop.
  pose proof (synthesize_run caps text o (ticked w)) as Hs.
  rewrite Ht in Hs. cbn in Hs. rewrite Hmk, Hsave, Hn in Hs.
  destruct Hs as (w1 & -> & Hsf & Hfs1 & Hsc & Htk).
  destruct (mkstemp_inner_fresh _ _ _ _ _ _ _ Hmk) as (Hfresh & j & ->).
  cbn. rewrite truthy_path_suffix.
  destruct (play_audio_sync_run caps (cap_tmp_name caps j ++ ".mp3")
              (with_temp_files (_temp_files o ++ [cap_tmp_name caps j ++ ".mp3"]) o) w1)
    as (b & w2 & Hplay & Hf & _ & Hsome).
  rewrite Hplay, speak_sync_clean_up_run. cbn.
  exists b, w1, w2. split; [done|]. split; [done|]. split; [done|]. split; [done|].
  split; [done|]. split; [done|]. split; [done|]. split; [|done].
  apply Hsome. rewrite Hfs1, lookup_insert_eq. eauto.
Qed.

(** A call that does not reach playback. *)
Lemma speak_sync_unreached caps text o w :
  (forall p n, ~ reaches_playback caps text o w p n) ->
  exists o' w',
    speak_sync caps text (o, w) = (Ok false, (o', w')) /\
    fs w ⊆ fs w' /\ o' = with_temp_files (_temp_files o') o /\
    locked w' = locked w /\ threads w' = threads w /\
    mixer_calls w' = mixer_calls w /\ mixer_ready w' = mixer_ready w /\
    clock w' = clock w.
Proof.
  intros Hnot.
  unfold speak_sync, bind at 1, get_self. cbn -[bind try_except].
  destruct (enabled o) eqn:Hen; cbn -[bind try_except].
  2:{ exists o, w. by destruct o. }
  destruct (truthy (strip text)) eqn:Ht; cbn -[bind try_except].
  2:{ exists o, w. by destruct o. }
  unfold try_except, bind, new_event_loop. cbn.
  destruct (cap_new_event_loop caps (tick w)) eqn:Hloop; cbn.
  2:{ eexists _, _. split; [reflexivity|]. by destruct o. }
  pose proof (synthesize_run caps text o (ticked w)) as Hs.
  rewrite Ht in Hs. cbn in Hs.
  destruct (mkstemp_inner _ _ _ _ _) as [[p k]|] eqn:Hmk.
  2:{ destruct Hs as (w' & -> & [? ? ? ? ? ?] & Hfs & _). cbn.
      eexists _, _. split; [reflexivity|]. cbn. rewrite Hfs. by destruct o. }
  destruct (mkstemp_inner_fresh _ _ _ _ _ _ _ Hmk) as (Hfresh & _).
  destruct (cap_save caps (S (tick w)) text (voice o)) as [n|n e] eqn:Hsave.
  - destruct (0 <? n)%N eqn:Hn.
    { exfalso. apply (Hnot p n). apply N.ltb_lt in Hn. repeat split; eauto. }
    destruct Hs as (w' & -> & [? ? ? ? ? ?] & Hfs & _). cbn.
    eexists _, _. split; [reflexivity|]. cbn. rewrite Hfs.
    split; [by apply insert_subseteq|]. by destruct o.
  - destruct Hs as (w' & -> & [? ? ? ? ? ?] & Hfs & _). cbn.
    eexists _, _. split; [reflexivity|]. cbn. rewrite Hfs.
    split; [by apply insert_subseteq|]. by destruct o.
Qed.

Lemma speak_sync_true_false caps text o w :
  fst (speak_sync caps text (o, w)) = Ok true \/ fst (speak_sync caps text (o, w)) = Ok false.
Proof.
  destruct (speak_sync_total caps text o w) as ([|] & o' & w' & ->); auto.
Qed.

Lemma speak_sync_true_ready caps text o w :
  fst (speak_sync caps text (o, w)) = Ok true -> mixer_ready w = true.
Proof.
  destruct (reaches_playback_dec caps text o w) as [(p & n & Hr) | Hnot].
  - destruct (speak_sync_reached _ _ _ _ _ _ Hr)
      as (b & w1 & w2 & _ & [_ _ _ Hrdy _ _] & _ & _ & _ & _ & _ & Hb & ->).
    cbn. intros [= ->]. destruct Hb as [Hb _]. destruct (Hb eq_refl) as (H & _).
    by rewrite Hrdy in H.
  - by destruct (speak_sync_unreached _ _ _ _ Hnot) as (o' & w' & -> & _).
Qed.

Lemma unlinked_threads p w : threads (unlinked p w) = threads w.
Proof. rewrite unlinked_rest. done. Qed.

(** *** Threads, step by step *)

Lemma speak_async_run caps text o w :
  speak_async caps text (o, w) =
    if negb (enabled o) || negb (truthy (strip text)) || is_playing o then (Ok tt, (o, w))
    else Thread_start caps (tts_worker_thread text) (o, w).
Proof.
  unfold speak_async, bind, get_self, ret. cbn.
  destruct (negb (enabled o) || negb (truthy (strip text))); [done|].
  by destruct (is_playing o).
Qed.

(** Starting a thread never raises unless the runtime refuses, and then
    changes nothing. *)
Lemma Thread_start_run caps th o w :
  Thread_start caps th (o, w) =
    match cap_thread_start caps (tick w) (length (threads w)) with
    | Returns => (Ok tt, (o, with_threads (threads w ++ [th]) w))
    | Raises e => (Raise e, (o, w))
    end.
Proof. reflexivity. Qed.



Lemma run_thread_finish caps i p o w :
  threads w !! i = Some (play_thread p true) ->
  run_thread caps i (o, w) =
    _play_audio_thread_rest caps p (o, with_threads (delete i (threads w)) w).
Proof.
  intros H. unfold run_thread, bind at 1, get_world. cbn -[bind]. rewrite H. reflexivity.
Qed.



Lemma synthesize_Some_inv caps text o w p o' w' :
  _synthesize_async caps text (o, w) = (Ok (Some p), (o', w')) ->
  fs w !! p = None /\ is_Some (fs w' !! p) /\
  o' = with_temp_files (_temp_files o ++ [p]) o /\ fs w ⊆ fs w'.
Proof.
  intros Hrun. pose proof (synthesize_run caps text o w) as Hs.
  destruct (negb (truthy (strip text))); [by rewrite Hs in Hrun|].
  destruct (mkstemp_inner _ _ _ _ _) as [[q k]|] eqn:Hmk.
  2:{ destruct Hs as (w1 & Hs & _). by rewrite Hs in Hrun. }
  destruct (mkstemp_inner_fresh _ _ _ _ _ _ _ Hmk) as (Hfresh & _).
  destruct (cap_save _ _ _ _) as [n|n e].
  2:{ destruct Hs as (w1 & Hs & _). by rewrite Hs in Hrun. }
  destruct Hs as (w1 & Hs & _ & Hfs & _). rewrite Hs in Hrun.
  destruct (0 <? n)%N; [|done]. injection Hrun as -> <- <-.
  rewrite Hfs, lookup_insert_eq. split; [done|]. split; [eauto|]. split; [done|].
  by apply insert_subseteq.
Qed.

Lemma elem_of_delete_other {A} (l : list A) i j x :
  l !! j = Some x -> i <> j -> x ∈ delete i l.
Proof.
  intros Hj Hne. destruct (decide (j < i)) as [Hlt|Hge].
  - apply (list_elem_of_lookup_2 _ j). by rewrite list_lookup_delete_lt.
  - apply (list_elem_of_lookup_2 _ (pred j)). rewrite list_lookup_delete_ge by lia.
    replace (S (pred j)) with j by lia. done.
Qed.

Lemma set_voice_run v o w :
  set_voice v (o, w) =
    (Ok tt, (with_voice v o, with_stdout (stdout w ++ ["TTS voice changed to: " ++ v]) w)).
Proof. reflexivity. Qed.

(** *** Parts of the object that a method does not look at *)

Section Ignores.

Variable f : TTSManager -> TTSManager.
Hypothesis f_voice : forall o, voice (f o) = voice o.
Hypothesis f_enabled : forall o, enabled (f o) = enabled o.
Hypothesis f_files : forall o, _temp_files (f o) = _temp_files o.
Hypothesis f_with_files : forall l o, f (with_temp_files l o) = with_temp_files l (f o).
Hypothesis f_with_playing : forall b o, f (with_is_playing b o) = with_is_playing b (f o).

Lemma ignores_ret {A} (a : A) : ignores f (ret a).
Proof. by intros o w. Qed.

Lemma ignores_bind {A B} (m : M A) (k : A -> M B) :
  ignores f m -> (forall a, ignores f (k a)) -> ignores f (bind m k).
Proof.
  intros Hm Hk o w. unfold bind. rewrite Hm. unfold on_self.
  destruct (m (o, w)) as [[a|e] [o' w']]; cbn; [apply Hk|done].
Qed.

Lemma ignores_try {A} (body : M A) (handler : exn -> M A) :
  ignores f body -> (forall e, ignores f (handler e)) -> ignores f (try_except body handler).
Proof.
  intros Hm Hk o w. unfold try_except. rewrite Hm. unfold on_self.
  destruct (body (o, w)) as [[a|e] [o' w']]; cbn; [done|apply Hk].
Qed.

Lemma ignores_get_self {A} (k : TTSManager -> M A) :
  (forall o w, k (f o) (f o, w) = on_self f (k o (o, w))) -> ignores f (bind get_self k).
Proof. intros H o w. unfold bind, get_self. cbn. apply H. Qed.

Lemma ignores_print line : ignores f (print line).
Proof. by intros o w. Qed.

Lemma ignores_exists p : ignores f (os_path_exists p).
Proof. by intros o w. Qed.

Lemma ignores_unlink p : ignores f (os_unlink p).
Proof.
  intros o w. unfold os_unlink, on_self. cbn.
  destruct (fs w !! p); [|done]. by case_bool_decide.
Qed.

Lemma ignores_music_get_busy : ignores f music_get_busy.
Proof.
  intros o w. unfold music_get_busy, on_self. cbn. by destruct (music_busy w) as [|[] ?].
Qed.

Lemma ignores_while_get_busy n : ignores f (while_get_busy n).
Proof.
  induction n as [|n IH]; [apply ignores_ret|]. cbn.
  apply ignores_bind; [apply ignores_music_get_busy|].
  intros [|]; [|apply ignores_ret].
  apply ignores_bind; [done|]. intros _. apply IH.
Qed.

Lemma ignores_wait_for_playback : ignores f wait_for_playback.
Proof.
  intros o w. unfold wait_for_playback, bind, get_world. cbn -[while_get_busy].
  apply ignores_while_get_busy.
Qed.

Lemma ignores_music_load caps p : ignores f (music_load caps p).
Proof.
  intros o w. unfold music_load, on_self. cbn.
  destruct (mixer_ready w); cbn; [|done].
  destruct (fs w !! p); [|done]. by destruct (cap_load caps (tick w) p).
Qed.

Lemma ignores_music_play caps : ignores f (music_play caps).
Proof. intros o w. unfold music_play, on_self. cbn. by destruct (cap_play caps (tick w)). Qed.

Lemma ignores_play_audio_sync caps p : ignores f (_play_audio_sync caps p).
Proof.
  unfold _play_audio_sync. apply ignores_try.
  - apply ignores_bind; [apply ignores_exists|]. intros [|]; cbn; [|apply ignores_ret].
    apply ignores_bind; [apply ignores_music_load|]. intros _.
    apply ignores_bind; [apply ignores_music_play|]. intros _.
    apply ignores_bind; [apply ignores_wait_for_playback|]. intros _. apply ignores_ret.
  - intros e. apply ignores_bind; [apply ignores_print|]. intros _. apply ignores_ret.
Qed.

Lemma ignores_temp_files_remove p : ignores f (temp_files_remove p).
Proof.
  intros o w. unfold temp_files_remove, bind, get_self, put_self, raise, on_self. cbn.
  rewrite f_files. destruct (list_remove p (_temp_files o)); cbn -[with_temp_files]; [|done].
  by rewrite f_with_files.
Qed.

Lemma ignores_speak_sync_clean_up p : ignores f (speak_sync_clean_up p).
Proof.
  unfold speak_sync_clean_up. apply ignores_try; [|intros e; apply ignores_ret].
  apply ignores_bind; [apply ignores_unlink|]. intros _.
  apply ignores_get_self. intros o w. rewrite f_files.
  destruct (list_contains p (_temp_files o)); [apply ignores_temp_files_remove|done].
Qed.

Lemma ignores_play_thread_clean_up p : ignores f (play_thread_clean_up p).
Proof.
  unfold play_thread_clean_up. apply ignores_try; [|intros e; apply ignores_ret].
  apply ignores_get_self. intros o w. rewrite f_files.
  destruct (list_contains p (_temp_files o)); [|done].
  apply ignores_bind; [apply ignores_unlink|]. intros _. apply ignores_temp_files_remove.
Qed.

Lemma ignores_synthesize caps text : ignores f (_synthesize_async caps text).
Proof.
  intros o w. unfold _synthesize_async.
  destruct (negb (truthy (strip text))); [done|].
  unfold try_except, bind, NamedTemporaryFile, get_self, Communicate_save, put_self,
    os_path_exists, os_path_getsize, print, ret, on_self. cbn -[with_temp_files].
  destruct (mkstemp_inner _ _ _ _ _) as [[p k]|]; cbn -[with_temp_files]; [|done].
  rewrite f_voice.
  destruct (cap_save caps (tick w) text (voice o)) as [n|n e]; cbn -[with_temp_files]; [|done].
  rewrite f_files, !insert_insert_eq, !lookup_insert_eq. cbn -[with_temp_files].
  rewrite ?lookup_insert_eq. destruct (0 <? n)%N; cbn -[with_temp_files]; by rewrite f_with_files.
Qed.

Lemma ignores_Thread_start caps th : ignores f (Thread_start caps th).
Proof.
  intros o w. rewrite !Thread_start_run. unfold on_self.
  by destruct (cap_thread_start caps (tick w) (length (threads w))).
Qed.

Lemma ignores_new_event_loop caps : ignores f (new_event_loop caps).
Proof.
  intros o w. unfold new_event_loop, on_self. cbn.
  by destruct (cap_new_event_loop caps (tick w)).
Qed.

Lemma ignores_speak_sync caps text : ignores f (speak_sync caps text).
Proof.
  unfold speak_sync. apply ignores_get_self. intros o w. rewrite f_enabled.
  destruct (negb (enabled o) || negb (truthy (strip text))); [done|].
  apply ignores_try.
  - apply ignores_bind; [apply ignores_new_event_loop|]. intros _.
    apply ignores_bind; [apply ignores_synthesize|]. intros r.
    destruct (truthy_opt r); [|apply ignores_ret]. destruct r as [p|]; [|apply ignores_ret].
    apply ignores_bind; [apply ignores_play_audio_sync|]. intros b.
    apply ignores_bind; [apply ignores_speak_sync_clean_up|]. intros _. apply ignores_ret.
  - intros e. apply ignores_bind; [apply ignores_print|]. intros _. apply ignores_ret.
Qed.

Lemma ignores_tts_worker caps text : ignores f (tts_worker caps text).
Proof.
  unfold tts_worker. apply ignores_try; [|intros e; apply ignores_print].
  apply ignores_bind; [apply ignores_new_event_loop|]. intros _.
  apply ignores_bind; [apply ignores_synthesize|]. intros r.
  destruct (truthy_opt r); [|apply ignores_ret].
  destruct r; [apply ignores_Thread_start|apply ignores_ret].
Qed.

Lemma ignores_play_audio_thread_rest caps p : ignores f (_play_audio_thread_rest caps p).
Proof.
  unfold _play_audio_thread_rest.
  apply ignores_bind; [apply ignores_play_audio_sync|]. intros b.
  apply ignores_bind; [apply ignores_play_thread_clean_up|]. intros _.
  apply ignores_get_self. intros o w. unfold bind, put_self, print, ret, on_self.
  cbn -[with_is_playing]. destruct b; cbn -[with_is_playing]; by rewrite f_with_playing.
Qed.

Lemma ignores_run_thread caps i : ignores f (run_thread caps i).
Proof.
  intros o w. unfold run_thread. rewrite !bind_eq. unfold get_world. cbn -[bind].
  destruct (threads w !! i) as [[text|p [|]]|]; [| | |done].
  - rewrite !bind_eq. unfold put_world. cbn. apply ignores_tts_worker.
  - rewrite !bind_eq. unfold put_world. cbn. apply ignores_play_audio_thread_rest.
  - unfold bind, put_world, get_self, put_self, on_self. cbn -[with_is_playing].
    by rewrite f_with_playing.
Qed.

End Ignores.

(** *** Tracked files *)

Lemma keeps_bind {A B} (m : M A) (k : A -> M B) :
  keeps_tracked m -> (forall a, keeps_tracked (k a)) -> keeps_tracked (bind m k).
Proof.
  intros Hm Hk s Hs. unfold bind. specialize (Hm s Hs).
  destruct (m s) as [[a|e] s']; cbn in *; [by apply Hk|done].
Qed.

Lemma keeps_try {A} (body : M A) (handler : exn -> M A) :
  keeps_tracked body -> (forall e, keeps_tracked (handler e)) ->
  keeps_tracked (try_except body handler).
Proof.
  intros Hm Hk s Hs. unfold try_except. specialize (Hm s Hs).
  destruct (body s) as [[a|e] s']; cbn in *; [done|by apply Hk].
Qed.

Lemma keeps_ret {A} (a : A) : keeps_tracked (ret a).
Proof. by intros s Hs. Qed.

Lemma keeps_print line : keeps_tracked (print line).
Proof. by intros [o w] Hs. Qed.

Lemma keeps_new_event_loop caps : keeps_tracked (new_event_loop caps).
Proof.
  intros [o w] Hs. unfold new_event_loop. cbn. by destruct (cap_new_event_loop caps (tick w)).
Qed.

Lemma keeps_Thread_start caps th : keeps_tracked (Thread_start caps th).
Proof.
  intros [o w] Hs. rewrite Thread_start_run.
  by destruct (cap_thread_start caps (tick w) (length (threads w))).
Qed.

(** A step that leaves the list alone and the tracked files in place. *)
Lemma tracked_ok_frame o w o' w' :
  tracked_ok (o, w) -> _temp_files o' = _temp_files o -> fs w ⊆ fs w' -> tracked_ok (o', w').
Proof.
  intros [Hnd Hall] Hl Hsub. split; cbn in *; rewrite Hl; [done|].
  eapply Forall_impl; [exact Hall|]. intros p [n Hn]. exists n. by eapply lookup_weaken.
Qed.

Lemma tracked_ok_fresh o w p :
  tracked_ok (o, w) -> fs w !! p = None -> p ∉ _temp_files o.
Proof.
  intros [_ Hall] Hp Hin. cbn in Hall. rewrite Forall_forall in Hall.
  destruct (Hall _ Hin) as [n Hn]. congruence.
Qed.

Lemma tracked_ok_snoc o w p n w' :
  tracked_ok (o, w) -> fs w !! p = None -> fs w' = <[p := n]> (fs w) ->
  tracked_ok (with_temp_files (_temp_files o ++ [p]) o, w').
Proof.
  intros Hok Hp Hfs. pose proof (tracked_ok_fresh _ _ _ Hok Hp) as Hnot.
  destruct Hok as [Hnd Hall]. cbn in *. split; cbn.
  - apply NoDup_app. split; [done|]. split; [|apply NoDup_singleton].
    intros q Hq ->%list_elem_of_singleton. done.
  - apply Forall_app. split.
    + eapply Forall_impl; [exact Hall|]. intros q [m Hm]. rewrite Hfs.
      exists m. rewrite lookup_insert_ne; [done|]. intros ->. congruence.
    + apply Forall_singleton. rewrite Hfs, lookup_insert_eq. eauto.
Qed.

Lemma keeps_synthesize caps text : keeps_tracked (_synthesize_async caps text).
Proof.
  intros [o w] Hok. pose proof (synthesize_run caps text o w) as Hs.
  destruct (negb (truthy (strip text))); [by rewrite Hs|].
  destruct (mkstemp_inner _ _ _ _ _) as [[p k]|] eqn:Hmk.
  2:{ destruct Hs as (w' & -> & _ & Hfs & _). cbn.
      eapply tracked_ok_frame; [done|done|by rewrite Hfs]. }
  destruct (mkstemp_inner_fresh _ _ _ _ _ _ _ Hmk) as (Hfresh & _).
  destruct (cap_save _ _ _ _) as [n|n e].
  - destruct Hs as (w' & -> & _ & Hfs & _). cbn. by eapply tracked_ok_snoc.
  - destruct Hs as (w' & -> & _ & Hfs & _). cbn.
    eapply tracked_ok_frame; [done|done|]. rewrite Hfs. by apply insert_subseteq.
Qed.

Lemma keeps_play_audio_sync caps p : keeps_tracked (_play_audio_sync caps p).
Proof.
  intros [o w] Hok.
  destruct (play_audio_sync_run caps p o w) as (b & w' & -> & [Hfs _ _ _ _] & _). cbn.
  eapply tracked_ok_frame; [done|done|by rewrite Hfs].
Qed.

(** Deleting a file and dropping its entry, if any. *)
Lemma tracked_ok_removed o w p :
  tracked_ok (o, w) ->
  tracked_ok (match list_remove p (_temp_files o) with
              | Some l => with_temp_files l o
              | None => o
              end, with_fs (delete p (fs w)) w).
Proof.
  intros [Hnd Hall]. cbn in *. rewrite Forall_forall in Hall.
  destruct (list_remove p (_temp_files o)) as [l|] eqn:Hr.
  - apply list_remove_Some_perm in Hr. rewrite Hr in Hnd.
    apply NoDup_cons in Hnd as [Hnot Hnd]. split; cbn; [done|].
    apply Forall_forall. intros q Hq. rewrite lookup_delete_ne by (intros ->; done).
    apply Hall. rewrite Hr. by right.
  - apply list_remove_None in Hr. split; cbn; [done|].
    apply Forall_forall. intros q Hq. rewrite lookup_delete_ne by (intros ->; done).
    by apply Hall.
Qed.

Lemma keeps_speak_sync_clean_up p : keeps_tracked (speak_sync_clean_up p).
Proof.
  intros [o w] Hok. rewrite speak_sync_clean_up_run. cbn. unfold unlinked.
  destruct (fs w !! p) as [n|] eqn:Hp.
  - destruct (decide (p ∈ locked w)) as [Hl|Hl].
    + rewrite (bool_decide_eq_false_2 (_ /\ _)) by (by intros [_ ?]).
      by rewrite (bool_decide_eq_true_2 _ Hl).
    + rewrite (bool_decide_eq_true_2 (_ /\ _)) by eauto.
      rewrite (bool_decide_eq_false_2 _ Hl). by apply tracked_ok_removed.
  - rewrite (bool_decide_eq_false_2 (_ /\ _)); [done|]. by intros [[? ?] _].
Qed.

Lemma keeps_play_thread_clean_up p : keeps_tracked (play_thread_clean_up p).
Proof.
  intros [o w] Hok. rewrite play_thread_clean_up_run. cbn.
  case_bool_decide as Hin; [|done]. cbn. unfold unlinked.
  destruct (fs w !! p) as [n|] eqn:Hp.
  - destruct (decide (p ∈ locked w)) as [Hl|Hl].
    + rewrite (bool_decide_eq_false_2 (_ /\ _)) by (by intros [_ ?]).
      by rewrite (bool_decide_eq_true_2 _ Hl).
    + rewrite (bool_decide_eq_true_2 (_ /\ _)) by eauto.
      rewrite (bool_decide_eq_false_2 _ Hl). by apply tracked_ok_removed.
  - rewrite (bool_decide_eq_false_2 (_ /\ _)); [done|]. by intros [[? ?] _].
Qed.

Lemma keeps_cleanup : keeps_tracked cleanup.
Proof.
  intros [o w] _. rewrite cleanup_run. split; cbn; [apply NoDup_nil_2|apply Forall_nil_2].
Qed.

Lemma keeps_speak_async caps text : keeps_tracked (speak_async caps text).
Proof.
  intros [o w] Hok. rewrite speak_async_run.
  destruct (negb (enabled o) || negb (truthy (strip text)) || is_playing o); [done|].
  by apply keeps_Thread_start.
Qed.

Lemma keeps_get_self {A} (k : TTSManager -> M A) :
  (forall o, keeps_tracked (k o)) -> keeps_tracked (bind get_self k).
Proof. intros H [o w] Hok. unfold bind, get_self. cbn. by apply H. Qed.

Lemma keeps_speak_sync caps text : keeps_tracked (speak_sync caps text).
Proof.
  unfold speak_sync. apply keeps_get_self. intros o.
  destruct (negb (enabled o) || negb (truthy (strip text))); [apply keeps_ret|].
  apply keeps_try.
  - apply keeps_bind; [apply keeps_new_event_loop|]. intros _.
    apply keeps_bind; [apply keeps_synthesize|]. intros r.
    destruct (truthy_opt r); [|apply keeps_ret]. destruct r as [p|]; [|apply keeps_ret].
    apply keeps_bind; [apply keeps_play_audio_sync|]. intros b.
    apply keeps_bind; [apply keeps_speak_sync_clean_up|]. intros _. apply keeps_ret.
  - intros e. apply keeps_bind; [apply keeps_print|]. intros _. apply keeps_ret.
Qed.

Lemma keeps_tts_worker caps text : keeps_tracked (tts_worker caps text).
Proof.
  unfold tts_worker. apply keeps_try; [|intros e; apply keeps_print].
  apply keeps_bind; [apply keeps_new_event_loop|]. intros _.
  apply keeps_bind; [apply keeps_synthesize|]. intros r.
  destruct (truthy_opt r); [|apply keeps_ret].
  destruct r; [apply keeps_Thread_start|apply keeps_ret].
Qed.

Lemma keeps_play_audio_thread_rest caps p : keeps_tracked (_play_audio_thread_rest caps p).
Proof.
  unfold _play_audio_thread_rest.
  apply keeps_bind; [apply keeps_play_audio_sync|]. intros b.
  apply keeps_bind; [apply keeps_play_thread_clean_up|]. intros _.
  intros [o w] Hok. unfold bind, get_self, put_self, print, ret. cbn. by destruct b.
Qed.

Lemma keeps_run_thread caps i : keeps_tracked (run_thread caps i).
Proof.
  intros [o w] Hok. unfold run_thread. rewrite !bind_eq. unfold get_world. cbn -[bind].
  destruct (threads w !! i) as [[text|p [|]]|]; [| | |done].
  - rewrite !bind_eq. unfold put_world. cbn. by apply keeps_tts_worker.
  - rewrite !bind_eq. unfold put_world. cbn. by apply keeps_play_audio_thread_rest.
  - done.
Qed.

Lemma keeps_run_schedule caps sched : keeps_tracked (run_schedule caps sched).
Proof.
  induction sched as [|i sched IH]; [apply keeps_ret|]. cbn.
  apply keeps_bind; [apply keeps_run_thread|]. intros _. apply IH.
Qed.

(** ** The further properties *)

(** X1: [speak_sync] returns [True] exactly when the object is enabled, the
    text is not blank, the event loop and the temporary file are created,
    [save] returns leaving a non-empty file, the mixer is initialised, [load]
    and [play] return and no poll of the track fails. *)
Theorem speak_sync_true_iff caps text o w :
  fst (speak_sync caps text (o, w)) = Ok true <->
  exists p n,
    reaches_playback caps text o w p n /\
    mixer_ready w = true /\
    cap_load caps (S (S (tick w))) p = Returns /\
    cap_play caps (S (S (S (tick w)))) = Returns /\
    forallb is_busy (cap_track caps (S (S (S (tick w))))) = true.
Proof.
  destruct (reaches_playback_dec caps text o w) as [(p & n & Hr) | Hnot].
  - destruct (speak_sync_reached _ _ _ _ _ _ Hr)
      as (b & w1 & w2 & _ & [_ _ _ Hrdy _ _] & _ & _ & Htk & _ & _ & Hb & ->).
    unfold play_ok in Hb. rewrite Htk, Hrdy in Hb. cbn in Hb. cbn. split.
    + intros [= ->]. exists p, n. split; [done|]. by apply Hb.
    + intros (q & m & Hr' & Hok). destruct (reaches_playback_unique _ _ _ _ _ _ _ _ Hr Hr')
        as [<- <-]. f_equal. by apply Hb.
  - destruct (speak_sync_unreached _ _ _ _ Hnot) as (o' & w' & -> & _). cbn. split; [done|].
    intros (p & n & Hr & _). by destruct (Hnot p n).
Qed.

(** X2: once synthesis has produced a non-empty file, [speak_sync] deletes it
    and drops its entry whether playback succeeded or not, provided the OS
    lets the file be deleted: the file system is as before the call and
    [_temp_files] holds what it held; the synthesis capability was called
    once. *)
Theorem speak_sync_cleans_after_any_playback caps text o w p n :
  reaches_playback caps text o w p n -> p ∉ locked w ->
  exists b o' w',
    speak_sync caps text (o, w) = (Ok b, (o', w')) /\
    fs w' = fs w /\ _temp_files o' ≡ₚ _temp_files o /\
    save_calls w' = S (save_calls w).
Proof.
  intros Hr Hl.
  destruct (speak_sync_reached _ _ _ _ _ _ Hr)
    as (b & w1 & w2 & Hfresh & [Hl1 _ _ _ _ _] & Hfs1 & Hsc & _ & _ & [Hfs2 Hl2 _ Hsc2 _] & _ & ->).
  eexists _, _, _. split; [reflexivity|].
  unfold after_sync_clean_up, unlinked. cbn.
  rewrite Hfs2, Hfs1, Hl2, Hl1, lookup_insert_eq. cbn.
  rewrite (bool_decide_eq_true_2 (_ /\ _)) by eauto.
  rewrite (bool_decide_eq_false_2 (p ∈ locked w)) by done.
  destruct (list_remove_snoc p (_temp_files o)) as (l' & -> & Hperm). cbn.
  rewrite delete_insert_id by done. split; [done|]. split; [done|]. congruence.
Qed.

Lemma speak_sync_cleans_after_any_playback_witness :
  exists b o' w',
    speak_sync demo_no_device (of_ascii "hello") (demo_self, demo_world) = (Ok b, (o', w')) /\
    fs w' = fs demo_world /\ _temp_files o' ≡ₚ _temp_files demo_self /\
    save_calls w' = S (save_calls demo_world).
Proof.
  apply (speak_sync_cleans_after_any_playback demo_no_device (of_ascii "hello")
           demo_self demo_world "/tmp/tmp0.mp3" 100%N).
  - repeat split; try reflexivity. exists 1. vm_compute. reflexivity.
  - apply not_elem_of_empty.
Defined.

(** X3: [speak_sync] never raises; every file that existed before the call is
    still there with the same content; of the object only [_temp_files] may
    have changed; the lock set and the thread table are untouched. *)
Theorem speak_sync_frame caps text o w :
  exists b o' w',
    speak_sync caps text (o, w) = (Ok b, (o', w')) /\
    fs w ⊆ fs w' /\
    o' = with_temp_files (_temp_files o') o /\
    locked w' = locked w /\ threads w' = threads w.
Proof.
  destruct (reaches_playback_dec caps text o w) as [(p & n & Hr) | Hnot].
  - destruct (speak_sync_reached _ _ _ _ _ _ Hr)
      as (b & w1 & w2 & Hfresh & [Hl1 Ht1 _ _ _ _] & Hfs1 & _ & _ & _ & [Hfs2 Hl2 _ _ Ht2] & _ & ->).
    eexists _, _, _. split; [reflexivity|].
    unfold after_sync_clean_up. cbn. cbn in Hl1, Ht1.
    split; [|split; [|split]].
    + unfold unlinked. rewrite Hfs2, Hfs1, lookup_insert_eq.
      case_bool_decide; cbn.
      * rewrite Hfs2, Hfs1. by apply insert_subseteq.
      * by rewrite delete_insert_id.
    + case_bool_decide; [|by destruct o].
      destruct (list_remove p (_temp_files o ++ [p])); by destruct o.
    + rewrite unlinked_locked. congruence.
    + rewrite unlinked_threads. congruence.
  - destruct (speak_sync_unreached _ _ _ _ Hnot) as (o' & w' & -> & ? & ? & ? & ? & _).
    by eexists _, _, _.
Qed.

(** X4: when [save] raises, the synthesis step reports no result and leaves
    the object as it was, but the temporary file it created stays on disk
    with whatever was written; since its path is not in [_temp_files], a
    later [cleanup] does not delete it. *)
Theorem synthesize_raise_leaks_file caps text o w p k n e :
  truthy (strip text) = true ->
  mkstemp_inner (cap_tmp_name caps) ".mp3" (fs w) (cap_tmp_max caps) (tmp_next w) = Some (p, k) ->
  cap_save caps (tick w) text (voice o) = SaveErr n e ->
  exists w',
    _synthesize_async caps text (o, w) = (Ok None, (o, w')) /\
    fs w !! p = None /\ fs w' !! p = Some n /\
    (p ∉ _temp_files o -> fs (snd (snd (cleanup (o, w')))) !! p = Some n).
Proof.
  intros Ht Hmk Hsave.
  pose proof (synthesize_run caps text o w) as Hs.
  rewrite Ht in Hs. cbn in Hs. rewrite Hmk, Hsave in Hs.
  destruct Hs as (w' & Hrun & _ & Hfs & _).
  destruct (mkstemp_inner_fresh _ _ _ _ _ _ _ Hmk) as (Hfresh & _).
  exists w'. split; [done|]. split; [done|].
  assert (fs w' !! p = Some n) as Hp by (by rewrite Hfs, lookup_insert_eq).
  split; [done|]. intros Hnot. rewrite cleanup_run. cbn.
  rewrite swept_fs, bool_decide_eq_false_2; [done|]. by intros [? _].
Qed.

Lemma synthesize_raise_leaks_file_witness :
  exists w',
    _synthesize_async demo_raising (of_ascii "hello") (demo_self, demo_world) =
      (Ok None, (demo_self, w')) /\
    fs demo_world !! "/tmp/tmp0.mp3" = None /\ fs w' !! "/tmp/tmp0.mp3" = Some 0%N /\
    ("/tmp/tmp0.mp3" ∉ _temp_files demo_self ->
     fs (snd (snd (cleanup (demo_self, w')))) !! "/tmp/tmp0.mp3" = Some 0%N).
Proof.
  apply (synthesize_raise_leaks_file demo_raising (of_ascii "hello") demo_self demo_world
           "/tmp/tmp0.mp3" 1 0%N EdgeTTSError); vm_compute; reflexivity.
Defined.

(** X5: construction never raises and yields an object with the given voice,
    [is_playing] false and no tracked file; the object is enabled only if it
    was asked to be and the mixer is initialised; the mixer is called once
    when [enabled] was asked for and not at all otherwise, and no file is
    touched. *)
Theorem init_state caps v en w :
  exists o' w',
    __init__ caps v en w = (Ok tt, (o', w')) /\
    voice o' = v /\ is_playing o' = false /\ _temp_files o' = [] /\
    (enabled o' = true -> en = true /\ mixer_ready w' = true) /\
    fs w' = fs w /\ threads w' = threads w /\
    mixer_calls w' = (if en then S (mixer_calls w) else mixer_calls w) /\
    length (stdout w') = (if en then S (length (stdout w)) else length (stdout w)).
Proof.
  unfold __init__, try_except, bind, pygame_mixer_init, print, get_self, put_self, ret. cbn.
  destruct en; cbn.
  - destruct (cap_mixer_init caps (tick w)); cbn; eexists _, _; (split; [reflexivity|]); cbn;
      rewrite length_app; cbn; repeat split; try done; lia.
  - eexists _, _. split; [reflexivity|]. cbn. repeat split; done.
Qed.

(** X6: [set_enabled] does not initialise the mixer.  In a world where the
    mixer is not initialised, an object constructed disabled, or whose
    initialisation failed, and enabled afterwards is enabled, yet
    [speak_sync] returns [False] on every text, whatever synthesis does. *)
Theorem enabling_later_never_plays caps v en text w :
  mixer_ready w = false ->
  (en = true -> exists e, cap_mixer_init caps (tick w) = Raises e) ->
  enabled (fst (snd (set_enabled true (snd (__init__ caps v en w))))) = true /\
  fst (speak_sync caps text (snd (set_enabled true (snd (__init__ caps v en w))))) = Ok false.
Proof.
  intros Hrdy Hen.
  assert (exists o1 w1, snd (set_enabled true (snd (__init__ caps v en w))) = (o1, w1) /\
            enabled o1 = true /\ mixer_ready w1 = false) as (o1 & w1 & -> & Hen1 & Hrdy1).
  { unfold __init__, set_enabled, try_except, bind, pygame_mixer_init, print, get_self,
      put_self, ret. cbn.
    destruct en; cbn.
    - destruct (Hen eq_refl) as [e ->]. cbn. by eexists _, _.
    - by eexists _, _. }
  split; [done|].
  destruct (speak_sync_true_false caps text o1 w1) as [Hb | Hb]; [|done].
  apply speak_sync_true_ready in Hb. congruence.
Qed.

Lemma enabling_later_never_plays_witness :
  enabled (fst (snd (set_enabled true
             (snd (__init__ demo_ok "ru-RU-DariyaNeural" false cold_world))))) = true /\
  fst (speak_sync demo_ok (of_ascii "hello")
         (snd (set_enabled true
                 (snd (__init__ demo_ok "ru-RU-DariyaNeural" false cold_world))))) = Ok false.
Proof.
  apply (enabling_later_never_plays demo_ok "ru-RU-DariyaNeural" false (of_ascii "hello")
           cold_world).
  - reflexivity.
  - intros H. discriminate H.
Defined.

(** X7: the synthesis worker never raises, never calls the mixer and never
    touches [is_playing].  It starts at most one thread, a playback thread,
    and only for a path that it has just created, that is registered in
    [_temp_files] and whose file is not empty, after exactly one call of the
    synthesis capability. *)
Theorem worker_starts_playback_only_after_synthesis caps text o w :
  exists o' w',
    tts_worker caps text (o, w) = (Ok tt, (o', w')) /\
    mixer_calls w' = mixer_calls w /\ is_playing o' = is_playing o /\
    (threads w' = threads w \/
     exists p n,
       threads w' = (threads w ++ [play_thread p false])%list /\
       fs w !! p = None /\ fs w' !! p = Some n /\ (0 < n)%N /\
       _temp_files o' = (_temp_files o ++ [p])%list /\
       save_calls w' = S (save_calls w)).
Proof.
  unfold tts_worker, try_except, bind, new_event_loop. cbn.
  destruct (cap_new_event_loop caps (tick w)); cbn.
  2:{ eexists _, _. split; [reflexivity|]. split; [done|]. split; [done|by left]. }
  pose proof (synthesize_run caps text o (ticked w)) as Hs.
  destruct (negb (truthy (strip text))).
  { rewrite Hs. cbn. eexists _, _. split; [reflexivity|]. split; [done|]. split; [done|by left]. }
  destruct (mkstemp_inner _ _ _ _ _) as [[p k]|] eqn:Hmk.
  2:{ destruct Hs as (w' & -> & [_ Hth Hmc _ _ _] & _). cbn.
      eexists _, _. split; [reflexivity|]. split; [done|]. split; [done|by left]. }
  destruct (mkstemp_inner_fresh _ _ _ _ _ _ _ Hmk) as (Hfresh & j & Hname).
  destruct (cap_save _ _ _ _) as [n|n e].
  - destruct Hs as (w' & -> & [_ Hth Hmc _ _ _] & Hfs & Hsc & _).
    destruct (0 <? n)%N eqn:Hn; cbn.
    + rewrite Hname, truthy_path_suffix. cbn. rewrite Thread_start_run.
      destruct (cap_thread_start caps (tick w') (length (threads w'))); cbn;
        eexists _, _; (split; [reflexivity|]); cbn; (split; [done|]); (split; [done|]);
        [|by left].
      right. exists (cap_tmp_name caps j ++ ".mp3"), n. subst p.
      rewrite Hth, Hsc, Hfs, lookup_insert_eq. apply N.ltb_lt in Hn. done.
    + eexists _, _. split; [reflexivity|]. cbn. split; [done|]. split; [done|by left].
  - destruct Hs as (w' & -> & [_ Hth Hmc _ _ _] & _). cbn.
    eexists _, _. split; [reflexivity|]. split; [done|]. split; [done|by left].
Qed.

(** X8: two synthesis steps in a row that both return a path return
    different paths; both are registered, in order, and both files are on
    disk. *)
Theorem synthesized_paths_distinct caps text1 text2 o w p o1 w1 q o2 w2 :
  _synthesize_async caps text1 (o, w) = (Ok (Some p), (o1, w1)) ->
  _synthesize_async caps text2 (o1, w1) = (Ok (Some q), (o2, w2)) ->
  p <> q /\ _temp_files o2 = (_temp_files o ++ [p; q])%list /\
  is_Some (fs w2 !! p) /\ is_Some (fs w2 !! q).
Proof.
  intros H1 H2.
  apply synthesize_Some_inv in H1 as (Hp0 & [n Hp1] & -> & _).
  apply synthesize_Some_inv in H2 as (Hq1 & Hq2 & -> & Hsub).
  split; [intros ->; congruence|]. cbn. rewrite <- app_assoc. split; [done|].
  split; [|done]. exists n. by eapply lookup_weaken.
Qed.

Lemma synthesized_paths_distinct_witness :
  "/tmp/tmp0.mp3" <> "/tmp/tmp1.mp3" /\
  _temp_files (fst (snd demo_second))
    = (_temp_files demo_self ++ ["/tmp/tmp0.mp3"; "/tmp/tmp1.mp3"])%list /\
  is_Some (fs (snd (snd demo_second)) !! "/tmp/tmp0.mp3") /\
  is_Some (fs (snd (snd demo_second)) !! "/tmp/tmp1.mp3").
Proof.
  apply (synthesized_paths_distinct demo_ok (of_ascii "a") (of_ascii "b") demo_self demo_world
           "/tmp/tmp0.mp3" (fst (snd demo_first)) (snd (snd demo_first))
           "/tmp/tmp1.mp3" (fst (snd demo_second)) (snd (snd demo_second)));
    vm_compute; reflexivity.
Defined.



(** X10: [_play_audio_sync] never raises and leaves the object alone.  Its
    result is true exactly when playback started and every poll of the track
    was answered "busy".  It sleeps 100 ms for each poll answered "busy"
    before the first other answer, also when a poll then fails, and does not
    sleep at all when playback did not start.  It prints one line when the
    file exists and the result is false, and nothing otherwise. *)
Theorem play_audio_sync_effects caps p o w :
  exists b w',
    _play_audio_sync caps p (o, w) = (Ok b, (o, w')) /\
    b = playback_started caps p w && forallb is_busy (cap_track caps (S (tick w))) /\
    clock w' = (clock w + 100 * N.of_nat
                  (if playback_started caps p w
                   then busy_prefix (cap_track caps (S (tick w))) else 0))%N /\
    length (stdout w') =
      length (stdout w) + (if bool_decide (is_Some (fs w !! p)) && negb b then 1 else 0).
Proof.
  unfold _play_audio_sync, try_except, bind, os_path_exists, music_load, music_play,
    print, ret, playback_started. cbn -[wait_for_playback].
  destruct (fs w !! p) as [n|] eqn:Hp; cbn -[wait_for_playback].
  2:{ exists false, w. repeat split; try done; cbn; try lia. }
  destruct (mixer_ready w) eqn:Hr; cbn -[wait_for_playback]; rewrite ?Hp.
  2:{ eexists false, _. split; [reflexivity|]. cbn. rewrite length_app. cbn.
      repeat split; try done; try lia. }
  destruct (cap_load caps (tick w) p) eqn:Hl; cbn -[wait_for_playback].
  2:{ eexists false, _. split; [reflexivity|]. cbn. rewrite length_app. cbn.
      repeat split; try done; try lia. }
  destruct (cap_play caps (S (tick w))) eqn:Hpl; cbn -[wait_for_playback].
  2:{ eexists false, _. split; [reflexivity|]. cbn. rewrite length_app. cbn.
      repeat split; try done; try lia. }
  set (w1 := with_music_busy _ _).
  destruct (wait_for_playback_run o w1)
    as (w' & Hrun & Hf & Hout & Hrdy & Hclk & Hcalls & Hidle).
  rewrite Hrun. subst w1. cbn in *.
  destruct (forallb is_busy (cap_track caps (S (tick w)))) eqn:Hall.
  - exists true, w'. split; [done|]. split; [done|]. split; [done|]. cbn. rewrite Hout. lia.
  - eexists false, _. split; [reflexivity|]. split; [done|]. cbn. split; [done|].
    rewrite length_app, Hout. cbn. lia.
Qed.

(** X11: if [cleanup] runs before the playback thread of a tracked file that
    the OS lets go, the thread finds the file gone: it never calls the mixer,
    does not sleep, and ends with [is_playing] false, [_temp_files] empty and
    the file absent. *)
Theorem cleanup_then_playback_thread caps p o w :
  p ∈ _temp_files o -> p ∉ locked w ->
  exists o' w',
    (cleanup ;;; _play_audio_thread caps p) (o, w) = (Ok tt, (o', w')) /\
    fs w' !! p = None /\ _temp_files o' = [] /\ is_playing o' = false /\
    mixer_calls w' = mixer_calls w /\ clock w' = clock w.
Proof.
  intros Hin Hl. rewrite bind_eq, cleanup_run.
  set (w0 := swept (_temp_files o) w).
  assert (fs w0 !! p = None) as Hgone.
  { unfold w0. rewrite swept_fs. by rewrite bool_decide_eq_true_2. }
  unfold _play_audio_thread, bind, get_self, put_self. cbn.
  destruct (play_audio_thread_rest_run caps p (with_is_playing true (with_temp_files [] o)) w0)
    as (b & w1 & Hplay & _ & ->).
  destruct (play_audio_sync_run caps p (with_is_playing true (with_temp_files [] o)) w0)
    as (b' & w1' & Hplay' & _ & Hnone & _).
  rewrite Hplay in Hplay'. injection Hplay' as <- <-.
  destruct (Hnone Hgone) as [-> ->].
  eexists _, _. split; [reflexivity|].
  unfold after_thread_clean_up. cbn.
  rewrite bool_decide_eq_false_2 by apply not_elem_of_nil. cbn.
  unfold w0. rewrite (swept_rest _ w). cbn. done.
Qed.

Lemma cleanup_then_playback_thread_witness :
  exists o' w',
    (cleanup ;;; _play_audio_thread demo_ok "/tmp/tmp0.mp3") (stuck_self, tracked_world)
      = (Ok tt, (o', w')) /\
    fs w' !! "/tmp/tmp0.mp3" = None /\ _temp_files o' = [] /\ is_playing o' = false /\
    mixer_calls w' = mixer_calls tracked_world /\ clock w' = clock tracked_world.
Proof.
  apply (cleanup_then_playback_thread demo_ok "/tmp/tmp0.mp3" stuck_self tracked_world).
  - vm_compute. apply list_elem_of_singleton. reflexivity.
  - apply not_elem_of_empty.
Defined.

(** X12: [speak_sync] neither consults nor sets [is_playing]: with the flag
    set to any value it does what it does otherwise, and the flag is at the
    end what it was at the start. *)
Theorem speak_sync_ignores_is_playing caps text b o w :
  speak_sync caps text (with_is_playing b o, w) =
    on_self (with_is_playing b) (speak_sync caps text (o, w)) /\
  is_playing (fst (snd (speak_sync caps text (o, w)))) = is_playing o.
Proof.
  assert (forall c, ignores (with_is_playing c) (speak_sync caps text)) as Hig.
  { intros c. by apply ignores_speak_sync. }
  split; [apply Hig|].
  replace o with (with_is_playing (is_playing o) o) at 1 by (by destruct o).
  rewrite Hig. reflexivity.
Qed.

(** X13: the background threads never consult [enabled]: a step of any
    thread does the same whether the object is enabled or not, so disabling
    the object does not stop a request that is already in flight; and no
    step changes [enabled]. *)
Theorem threads_ignore_enabled caps i b o w :
  run_thread caps i (with_enabled b o, w) =
    on_self (with_enabled b) (run_thread caps i (o, w)) /\
  enabled (fst (snd (run_thread caps i (o, w)))) = enabled o.
Proof.
  assert (forall c, ignores (with_enabled c) (run_thread caps i)) as Hig.
  { intros c. by apply ignores_run_thread. }
  split; [apply Hig|].
  replace o with (with_enabled (enabled o) o) at 1 by (by destruct o).
  rewrite Hig. reflexivity.
Qed.

(** X14: if every tracked path names a file on disk and no path is tracked
    twice, the same holds after [speak_sync], after [speak_async], after
    [cleanup] and after any number of steps of the background threads. *)
Theorem tracked_files_invariant caps s :
  tracked_ok s ->
  (forall text, tracked_ok (snd (speak_sync caps text s))) /\
  (forall text, tracked_ok (snd (speak_async caps text s))) /\
  tracked_ok (snd (cleanup s)) /\
  (forall sched, tracked_ok (snd (run_schedule caps sched s))).
Proof.
  intros Hok. split; [|split; [|split]].
  - intros text. by apply keeps_speak_sync.
  - intros text. by apply keeps_speak_async.
  - by apply keeps_cleanup.
  - intros sched. by apply keeps_run_schedule.
Qed.

Lemma tracked_files_invariant_witness :
  (forall text, tracked_ok (snd (speak_sync demo_ok text (stuck_self, tracked_world)))) /\
  (forall text, tracked_ok (snd (speak_async demo_ok text (stuck_self, tracked_world)))) /\
  tracked_ok (snd (cleanup (stuck_self, tracked_world))) /\
  (forall sched, tracked_ok (snd (run_schedule demo_ok sched (stuck_self, tracked_world)))).
Proof.
  apply (tracked_files_invariant demo_ok (stuck_self, tracked_world)).
  split.
  - apply NoDup_singleton.
  - apply Forall_singleton. vm_compute. eauto.
Defined.

(** X15: when every tracked path names a file on disk, a [speak_sync] call
    that reaches playback of a file that the OS lets go leaves the object
    exactly as it was and the file system as it was, whether playback
    succeeded or not; the path it used was not tracked before. *)
Theorem speak_sync_restores_state caps text o w p n :
  tracked_ok (o, w) -> reaches_playback caps text o w p n -> p ∉ locked w ->
  exists b w',
    speak_sync caps text (o, w) = (Ok b, (o, w')) /\ fs w' = fs w /\
    p ∉ _temp_files o.
Proof.
  intros Hok Hr Hl.
  destruct (speak_sync_reached _ _ _ _ _ _ Hr)
    as (b & w1 & w2 & Hfresh & [Hl1 _ _ _ _ _] & Hfs1 & _ & _ & _ & [Hfs2 Hl2 _ _ _] & _ & ->).
  pose proof (tracked_ok_fresh _ _ _ Hok Hfresh) as Hnot.
  eexists b, _. unfold after_sync_clean_up, unlinked. cbn.
  rewrite Hfs2, Hfs1, Hl2, Hl1, lookup_insert_eq. cbn.
  rewrite (bool_decide_eq_true_2 (_ /\ _)) by eauto.
  rewrite (bool_decide_eq_false_2 (p ∈ locked w)) by done.
  rewrite list_remove_snoc_fresh by done. cbn.
  split; [by destruct o|]. cbn. rewrite delete_insert_id by done. done.
Qed.

Lemma speak_sync_restores_state_witness :
  exists b w',
    speak_sync demo_no_device (of_ascii "hello") (stuck_self, tracked_world) =
      (Ok b, (stuck_self, w')) /\
    fs w' = fs tracked_world /\ "/tmp/tmp1.mp3" ∉ _temp_files stuck_self.
Proof.
  apply (speak_sync_restores_state demo_no_device (of_ascii "hello") stuck_self tracked_world
           "/tmp/tmp1.mp3" 100%N).
  - split; [apply NoDup_singleton|]. apply Forall_singleton. vm_compute. eauto.
  - repeat split; try reflexivity. exists 2. vm_compute. reflexivity.
  - apply not_elem_of_empty.
Defined.

(** X16: [set_voice] and a [speak_async] that returns commute: a voice set
    after the request was made but before its worker runs is the voice of the
    object when the worker synthesizes, so the request in flight is
    synthesized with the new voice, exactly as if the voice had been set
    first.  When [speak_async] raises instead, the host never reaches its
    [set_voice] and the object and the world are what they were. *)
Theorem set_voice_reaches_request_in_flight caps text v sched o w :
  match fst (speak_async caps text (o, w)) with
  | Ok _ =>
      (speak_async caps text ;;; set_voice v ;;; run_schedule caps sched) (o, w) =
      (set_voice v ;;; speak_async caps text ;;; run_schedule caps sched) (o, w) /\
      voice (fst (snd ((speak_async caps text ;;; set_voice v) (o, w)))) = v /\
      threads (snd (snd ((speak_async caps text ;;; set_voice v) (o, w))))
        = threads (snd (snd (speak_async caps text (o, w))))
  | Raise e =>
      (speak_async caps text ;;; set_voice v ;;; run_schedule caps sched) (o, w) =
        (Raise e, (o, w))
  end.
Proof.
  rewrite !(bind_eq (speak_async caps text)), !(bind_eq (set_voice v)), set_voice_run.
  rewrite (bind_eq (speak_async caps text)), !speak_async_run, !Thread_start_run.
  cbn [enabled is_playing with_voice tick threads with_stdout].
  destruct (negb (enabled o) || negb (truthy (strip text)) || is_playing o).
  { by cbn -[run_schedule]. }
  by destruct (cap_thread_start caps (tick w) (length (threads w))); cbn -[run_schedule].
Qed.

(** X17: [is_playing] is not a lock.  When two playback threads are in
    progress and one of them finishes, the flag is cleared although the other
    is still in the thread table, and a further [speak_async] on an enabled
    object is accepted: it passes the busy check and starts a worker, or
    raises what the runtime raises when it refuses the thread. *)
Theorem flag_cleared_while_other_plays caps i j p q text o w :
  threads w !! i = Some (play_thread p true) ->
  threads w !! j = Some (play_thread q true) -> i <> j ->
  enabled o = true -> truthy (strip text) = true ->
  exists o' w',
    run_thread caps i (o, w) = (Ok tt, (o', w')) /\
    is_playing o' = false /\
    play_thread q true ∈ threads w' /\
    speak_async caps text (o', w') =
      match cap_thread_start caps (tick w') (length (threads w')) with
      | Returns => (Ok tt, (o', with_threads (threads w' ++ [tts_worker_thread text]) w'))
      | Raises e => (Raise e, (o', w'))
      end.
Proof.
  intros Hi Hj Hne Hen Ht. rewrite (run_thread_finish caps i p) by done.
  destruct (play_audio_thread_rest_run caps p o (with_threads (delete i (threads w)) w))
    as (b & w1 & _ & [_ _ _ _ Hth] & ->).
  pose proof (after_thread_clean_up_frame p o w1) as (Ht' & _ & _ & _ & Hen' & _).
  cbn in Hth. eexists _, _. split; [reflexivity|]. split; [done|].
  assert (play_thread q true ∈ threads w1) as Hq.
  { rewrite Hth. by eapply elem_of_delete_other. }
  split.
  - destruct b; cbn; by rewrite Ht'.
  - rewrite speak_async_run. cbn -[Thread_start]. rewrite Hen', Hen, Ht.
    cbn -[Thread_start]. by rewrite Thread_start_run.
Qed.

Lemma flag_cleared_while_other_plays_witness :
  exists o' w',
    run_thread demo_ok 0 (overlap_self, overlap_world) = (Ok tt, (o', w')) /\
    is_playing o' = false /\
    play_thread "/tmp/tmp1.mp3" true ∈ threads w' /\
    speak_async demo_ok (of_ascii "hello") (o', w') =
      match cap_thread_start demo_ok (tick w') (length (threads w')) with
      | Returns =>
          (Ok tt, (o', with_threads (threads w' ++ [tts_worker_thread (of_ascii "hello")]) w'))
      | Raises e => (Raise e, (o', w'))
      end.
Proof.
  apply (flag_cleared_while_other_plays demo_ok 0 1 "/tmp/tmp0.mp3" "/tmp/tmp1.mp3"
           (of_ascii "hello") overlap_self overlap_world); try reflexivity.
  lia.
Defined.

